(** * Hybrid ranking of rag_search_txt.py: BM25 + vector similarity

    A shallow embedding of [simple_tokenize], [hybrid_search] and [run_rag]
    of [rag_search_txt.py].

    Modelling conventions.
    - Python [float] / numpy [float64] scores are the exact rationals [Q];
      numeric equalities are stated with [==] ([Qeq]).
    - Python [str] is [string], one character per code point, restricted to
      code points below 256 (Latin-1); on that range [str.lower],
      [str.split()] and [in] are modelled exactly.
    - [print] appends a [line] to the output carried by the monad [M];
      [IndexError], [ZeroDivisionError] and [ValueError] are the error
      results of [M].
    - The collaborators that are not part of the repository (the BM25 index
      of [rank_bm25], the embedding call of [google.generativeai], the
      Chroma collection, the generative model) are Section variables. *)

From Stdlib Require Import QArith Qminmax Lqa Lia ZArith List Ascii String Bool.
From Stdlib Require Import Sorting.Permutation Sorting.Sorted.
From stdpp Require Import base option gmap strings.

Local Open Scope Q_scope.

(** ** Python strings *)

Module PyStr.

(** [c.isspace()] for a code point below 256: TAB..CR, FS..US, SPACE,
    NEL (0x85) and NBSP (0xA0). *)
Definition isspace (c : ascii) : bool :=
  let n := N_of_ascii c in
  ((9 <=? n) && (n <=? 13))%N || ((28 <=? n) && (n <=? 32))%N
  || (n =? 133)%N || (n =? 160)%N.

(** [c.lower()] for a code point below 256: A..Z and the Latin-1 capitals
    0xC0..0xDE (without the multiplication sign 0xD7) move up by 32. *)
Definition lower_char (c : ascii) : ascii :=
  let n := N_of_ascii c in
  if ((65 <=? n) && (n <=? 90))%N
     || ((192 <=? n) && (n <=? 222) && negb (n =? 215))%N
  then ascii_of_N (n + 32) else c.

(** [text.lower()] *)
Fixpoint lower (s : string) : string :=
  match s with
  | EmptyString => EmptyString
  | String c s' => String (lower_char c) (lower s')
  end.

(** Reverse of a string, used to emit the token that [split_aux]
    accumulates backwards. *)
Fixpoint rev_append (acc s : string) : string :=
  match acc with
  | EmptyString => s
  | String c acc' => rev_append acc' (String c s)
  end.

(** [text.split()] with no separator: maximal runs of non-space
    characters.  [cur] is the current run, reversed. *)
Fixpoint split_aux (cur : string) (s : string) : list string :=
  match s with
  | EmptyString =>
      match cur with
      | EmptyString => []
      | _ => [rev_append cur EmptyString]
      end
  | String c s' =>
      if isspace c then
        match cur with
        | EmptyString => split_aux EmptyString s'
        | _ => rev_append cur EmptyString :: split_aux EmptyString s'
        end
      else split_aux (String c cur) s'
  end.

Definition split (s : string) : list string := split_aux EmptyString s.

(** [sub in s] on strings: [sub] occurs in [s] as a contiguous substring. *)
Fixpoint contains (sub s : string) : bool :=
  String.prefix sub s ||
  match s with
  | EmptyString => false
  | String _ s' => contains sub s'
  end.

End PyStr.

(** ** Output and errors *)

(** The lines [hybrid_search] and [get_query_embedding] print. *)
Inductive line : Type :=
| LineSearchStart                (* "--- hybrid search start (Vector + BM25) ---" *)
| LineDbEmpty                    (* "DB is empty." *)
| LineEmbeddingError (e : string) (* "embedding error: {e}" *).

Inductive exn : Type :=
| IndexError
| ZeroDivisionError
| ValueError.

(** A computation prints lines and then either raises or returns. *)
Definition M (A : Type) : Type := list line * (exn + A).

Definition ret {A} (a : A) : M A := ([], inr a).
Definition raise {A} (e : exn) : M A := ([], inl e).
Definition print (l : line) : M unit := ([l], inr tt).

Definition bind {A B} (m : M A) (f : A -> M B) : M B :=
  match m with
  | (out, inl e) => (out, inl e)
  | (out, inr a) => let '(out', r) := f a in (out ++ out', r)
  end.

Declare Scope py_scope.
Delimit Scope py_scope with py.
Notation "'let*' x := m 'in' k" := (bind m (fun x => k))
  (at level 10, x pattern, m at level 100, k at level 200) : py_scope.
Notation "m >> k" := (bind m (fun _ => k))
  (at level 100, k at level 200, right associativity) : py_scope.
Local Open Scope py_scope.

(** The value a computation returns, if it returns. *)
Definition returned {A} (m : M A) : option A :=
  match snd m with inr a => Some a | inl _ => None end.

(** The error a computation raises, if it raises. *)
Definition raised {A} (m : M A) : option exn :=
  match snd m with inl e => Some e | inr _ => None end.

Definition printed {A} (m : M A) : list line := fst m.

(** ** Numbers and sequences *)

(** [x < y] on scores. *)
Definition Qltb (x y : Q) : bool := negb (Qle_bool y x).

(** [max] over a sequence whose first element is [cur]: the running
    maximum is replaced only by a strictly larger item. *)
Fixpoint max_from (cur : Q) (l : list Q) : Q :=
  match l with
  | [] => cur
  | y :: l' => max_from (if Qltb cur y then y else cur) l'
  end.

(** [np.max(a)]: [ValueError] on an empty array. *)
Definition np_max (a : list Q) : M Q :=
  match a with
  | [] => raise ValueError
  | x :: l => ret (max_from x l)
  end.

(** [x / y] on Python floats: [ZeroDivisionError] when [y] is zero. *)
Definition py_div (x y : Q) : M Q :=
  if Qeq_bool y 0 then raise ZeroDivisionError else ret (x / y).

(** [l[i]] for [i >= 0]: [IndexError] out of range. *)
Definition py_index {A} (l : list A) (i : nat) : M A :=
  match nth_error l i with
  | Some a => ret a
  | None => raise IndexError
  end.

(** [l[:k]]: a negative [k] counts from the end. *)
Definition slice_to {A} (l : list A) (k : Z) : list A :=
  if (0 <=? k)%Z then firstn (Z.to_nat k) l
  else firstn (length l - Z.to_nat (- k)) l.

(** [l.sort(key=lambda x: x[0], reverse=True)]: the stable descending
    sort, as insertion sort.  The head of the input stood before every
    element of the tail, so it is inserted in front of the first element
    whose key is not strictly larger. *)
Fixpoint insert_desc (x : Q * string) (l : list (Q * string))
  : list (Q * string) :=
  match l with
  | [] => [x]
  | y :: l' =>
      if Qltb (fst x) (fst y) then y :: insert_desc x l' else x :: l
  end.

Fixpoint sort_desc (l : list (Q * string)) : list (Q * string) :=
  match l with
  | [] => []
  | x :: l' => insert_desc x (sort_desc l')
  end.

(** ** The search *)

(** [simple_tokenize(text)]: [text.lower().split()] *)
Definition simple_tokenize (text : string) : list string :=
  PyStr.split (PyStr.lower text).

(** What [collection.get()] returns. *)
Record get_result : Type := {
  documents : list string;
  ids : list string
}.

(** What [collection.query(query_embeddings=[e], n_results=n)] returns,
    for its single query: [result['ids'][0]] and
    [result['distances'][0]]. *)
Record query_result : Type := {
  ids0 : list string;
  distances0 : list Q
}.

(** The Chroma collection, as far as [hybrid_search] uses it. *)
Record collection : Type := {
  get : get_result;
  query : list Q -> nat -> query_result
}.

(** [alpha = 0.6] *)
Definition alpha : Q := 6 # 10.

(** The bonus of the boost, [0.1]. *)
Definition bonus : Q := 1 # 10.

(** The constant added to [max_dist], [0.0001]. *)
Definition epsilon : Q := 1 # 10000.

(** [(k_score * alpha) + (v_score * (1 - alpha))], for a weight [a]. *)
Definition weighted_sum (a k_score v_score : Q) : Q :=
  (k_score * a) + (v_score * (1 - a)).

(** [if query.split()[0] in all_docs[i]: total_score += 0.1], given the
    first token and the document. *)
Definition boost (tok doc : string) (total_score : Q) : Q :=
  if PyStr.contains tok doc then total_score + bonus else total_score.

(** The normalisation of the BM25 scores:
    [if np.max(s) > 0: s = s / np.max(s)]. *)
Definition normalize (bm25_scores : list Q) : M (list Q) :=
  let* m := np_max bm25_scores in
  if Qltb 0 m then ret (map (fun s => s / m) bm25_scores)
  else ret bm25_scores.

(** [max(distances) if distances else 1] *)
Definition max_distance (distances : list Q) : Q :=
  match distances with
  | [] => 1
  | d :: l => max_from d l
  end.

(** [score = 1 - (dist / (max_dist + 0.0001))] *)
Definition dense_score (max_dist dist : Q) : M Q :=
  let* q := py_div dist (max_dist + epsilon) in
  ret (1 - q).

(** The loop over [zip(vector_ids, distances)] that fills
    [vector_score_map]. *)
Fixpoint vector_scores (max_dist : Q) (pairs : list (string * Q))
    (vector_score_map : gmap string Q) : M (gmap string Q) :=
  match pairs with
  | [] => ret vector_score_map
  | (doc_id, dist) :: rest =>
      let* score := dense_score max_dist dist in
      vector_scores max_dist rest (<[doc_id := score]> vector_score_map)
  end.

(** The loop over [enumerate(all_ids)], from index [i] on, appending to
    [final_scores]. *)
Fixpoint fuse (query : string) (all_docs : list string)
    (bm25_scores : list Q) (vector_score_map : gmap string Q)
    (i : nat) (all_ids : list string) (final_scores : list (Q * string))
  : M (list (Q * string)) :=
  match all_ids with
  | [] => ret final_scores
  | doc_id :: rest =>
      let v_score := default 0 (vector_score_map !! doc_id) in
      let* k_score := py_index bm25_scores i in
      let total_score := weighted_sum alpha k_score v_score in
      let* tok := py_index (PyStr.split query) 0 in
      let* doc := py_index all_docs i in
      let total_score := boost tok doc total_score in
      fuse query all_docs bm25_scores vector_score_map (S i) rest
           (final_scores ++ [(total_score, doc)])
  end.

(** The answer of [run_rag]. *)
Inductive reply : Type :=
| ReplyNoDb                      (* "no DB, run the /build API first" *)
| ReplyNotFound                  (* "could not find related documents" *)
| ReplyAnswer (text : string)    (* [resp.text] *)
| ReplyGeminiError (e : string)  (* "Gemini API error: {e}" *).

Section Search.

(** [BM25Okapi(tokenized_corpus).get_scores(tokenized_query)] of
    [rank_bm25]: the raw score of every document, or the error the
    library raises. *)
Variable bm25_get_scores : list (list string) -> list string -> exn + list Q.

(** [genai.embed_content(...)["embedding"]]: the embedding, or the
    message of the exception the call raises. *)
Variable embed_content : string -> string + list Q.

(** [model.generate_content(prompt).text] for the prompt built from the
    context and the query, or the message of the exception. *)
Variable generate_content : string -> string -> string + string.

(** [get_query_embedding(query)] *)
Definition get_query_embedding (q : string) : M (option (list Q)) :=
  match embed_content q with
  | inr e => ret (Some e)
  | inl msg => print (LineEmbeddingError msg) >> ret None
  end.

(** Steps A to C of [hybrid_search]: the list [final_scores] before it is
    sorted, or [None] when the search returns [[]] early. *)
Definition score_documents (q : string) (c : collection)
  : M (option (list (Q * string))) :=
  let all_docs_data := get c in
  let all_docs := documents all_docs_data in
  let all_ids := ids all_docs_data in
  match all_docs with
  | [] => print LineDbEmpty >> ret None
  | _ :: _ =>
      let tokenized_corpus := map simple_tokenize all_docs in
      let tokenized_query := simple_tokenize q in
      let* bm25_scores :=
        ([], bm25_get_scores tokenized_corpus tokenized_query) in
      let* bm25_scores := normalize bm25_scores in
      let* query_embedding := get_query_embedding q in
      match query_embedding with
      | None | Some [] => ret None (* [if not query_embedding: return []] *)
      | Some (x :: e) =>
          let vector_results := query c (x :: e) (length all_docs) in
          let distances := distances0 vector_results in
          let vector_ids := ids0 vector_results in
          let max_dist := max_distance distances in
          let* vector_score_map :=
            vector_scores max_dist (combine vector_ids distances) ∅ in
          let* final_scores :=
            fuse q all_docs bm25_scores vector_score_map 0 all_ids [] in
          ret (Some final_scores)
      end
  end.

(** [hybrid_search(query, collection, k)] *)
Definition hybrid_search (q : string) (c : collection) (k : Z)
  : M (list string) :=
  print LineSearchStart >>
  let* scored := score_documents q c in
  match scored with
  | None => ret []
  | Some final_scores =>
      ret (map snd (slice_to (sort_desc final_scores) k))
  end.

(** [run_rag(query)], given whether the database directory exists and the
    collection the client opens. *)
Definition run_rag (db_exists : bool) (c : collection) (q : string)
  : M reply :=
  if negb db_exists then ret ReplyNoDb
  else
    let* top_docs := hybrid_search q c 7 in
    match top_docs with
    | [] => ret ReplyNotFound
    | _ :: _ =>
        let context := String.concat (String "010" (String "010" "")) top_docs in
        match generate_content context q with
        | inr text => ret (ReplyAnswer text)
        | inl e => ret (ReplyGeminiError e)
        end
    end.

End Search.

(** * Vocabulary of the statements *)

(** [a] may stand before [b] in a descending list. *)
Definition desc (a b : Q * string) : Prop := fst b <= fst a.

(** The pairs whose score equals [s]. *)
Definition with_score (s : Q) (l : list (Q * string)) : list (Q * string) :=
  List.filter (fun p => Qeq_bool (fst p) s) l.

(** The map [vector_score_map] after the loop, when no division fails. *)
Definition dense_map (max_dist : Q) (pairs : list (string * Q))
    (m : gmap string Q) : gmap string Q :=
  fold_left (fun m p => <[fst p := 1 - snd p / (max_dist + epsilon)]> m)
            pairs m.

(** The entry the loop appends for an id, a sparse score and a
    document. *)
Definition fused_entry (tok : string) (vector_score_map : gmap string Q)
    (x : string * (Q * string)) : Q * string :=
  (boost tok (snd (snd x))
     (weighted_sum alpha (fst (snd x))
        (default 0 (vector_score_map !! fst x))),
   snd (snd x)).

(** The sparse scores after normalisation. *)
Definition sparse_norm (raw : list Q) : list Q :=
  match raw with
  | [] => []
  | x :: l =>
      if Qltb 0 (max_from x l)
      then map (fun s => s / max_from x l) raw else raw
  end.

(** The dense scores by id that a run with embedding [e] computes. *)
Definition dense_norm (c : collection) (e : list Q) : gmap string Q :=
  let vector_results := query c e (length (documents (get c))) in
  dense_map (max_distance (distances0 vector_results))
            (combine (ids0 vector_results) (distances0 vector_results)) ∅.

(** The list [final_scores] of a run that reaches the ranking. *)
Definition fused (c : collection) (raw e : list Q) (tok : string)
  : list (Q * string) :=
  map (fused_entry tok (dense_norm c e))
      (combine (ids (get c)) (combine (sparse_norm raw) (documents (get c)))).

(** The conditions under which a run reaches the ranking: the collection
    is not empty and lists one id per document, the BM25 library returns
    one raw score per document, the embedding call returns a non-empty
    embedding, the query has a first token, and the division by
    [max_dist + 0.0001] is defined. *)
Record ranks
    (bm25_get_scores : list (list string) -> list string -> exn + list Q)
    (embed_content : string -> string + list Q)
    (q : string) (c : collection) (raw e : list Q) (tok : string)
  : Prop := {
  ranks_docs : documents (get c) <> [];
  ranks_ids : length (ids (get c)) = length (documents (get c));
  ranks_bm25 :
    bm25_get_scores (map simple_tokenize (documents (get c)))
                    (simple_tokenize q) = inr raw;
  ranks_raw : length raw = length (documents (get c));
  ranks_embedding : embed_content q = inr e;
  ranks_embedding_nonempty : e <> [];
  ranks_token : exists toks, PyStr.split q = tok :: toks;
  ranks_distances :
    ~ max_distance
        (distances0 (query c e (length (documents (get c))))) + epsilon == 0
}.

(** [s] is empty or consists of whitespace only. *)
Fixpoint blank (s : string) : bool :=
  match s with
  | EmptyString => true
  | String c s' => PyStr.isspace c && blank s'
  end.

(** The one-document collection used to compare two spellings. *)
Definition single (doc : string) (query_fn : list Q -> nat -> query_result)
  : collection :=
  {| get := {| documents := [doc]; ids := ["a"%string] |};
     query := query_fn |}.

(** ** A sample collection

    A three-document collection with a stand-in for the BM25 library
    (the number of query tokens a document contains) and for the
    embedding call, used to instantiate the theorems below. *)

Module Sample.

Local Open Scope string_scope.

Definition term_overlap (corpus : list (list string)) (q : list string)
  : exn + list Q :=
  inr (map (fun d =>
         inject_Z (Z.of_nat
           (length (List.filter (fun t => existsb (String.eqb t) d) q))))
       corpus).

Definition embed_ok (q : string) : string + list Q := inr [1; 0].

Definition embed_down (q : string) : string + list Q := inl "unavailable".

Definition embed_nothing (q : string) : string + list Q := inr [].

Definition generate (context q : string) : string + string := inr context.

Definition corpus3 : collection := {|
  get := {| documents := ["Stats intro Oh"; "English Kim"; "stats lab Oh"];
            ids := ["a"; "b"; "c"] |};
  query := fun _ _ => {| ids0 := ["a"; "c"; "b"];
                         distances0 := [0; 1 # 2; 2] |}
|}.

Definition empty_corpus : collection := {|
  get := {| documents := []; ids := [] |};
  query := fun _ _ => {| ids0 := []; distances0 := [] |}
|}.

(** The raw scores of [term_overlap] for the query "stats Oh". *)
Definition raw3 : list Q := [2; 0; 2].

(** The three documents, all at distance 5 from the query. *)
Definition equidistant3 : collection := {|
  get := get corpus3;
  query := fun _ _ => {| ids0 := ["a"; "b"; "c"];
                         distances0 := [5; 5; 5] |}
|}.

(** The three documents, all at distance 0 from the query. *)
Definition coincident3 : collection := {|
  get := get corpus3;
  query := fun _ _ => {| ids0 := ["a"; "b"; "c"];
                         distances0 := [0; 0; 0] |}
|}.

End Sample.

(** * Further vocabulary *)

(** A token as [split] produces them: non-empty and free of whitespace. *)
Definition word (t : string) : Prop :=
  t <> EmptyString /\
  Forall (fun c => PyStr.isspace c = false) (list_ascii_of_string t).

(** The sample collection with a vector query that returns two of the
    three documents only. *)
Definition corpus3_partial : collection := {|
  get := get Sample.corpus3;
  query := fun _ _ => {| ids0 := ["a"; "c"]%string;
                         distances0 := [0; 1 # 2] |}
|}.

(** The sample collection with a vector query whose largest distance is
    [-0.0001], as a similarity-based distance can be. *)
Definition corpus3_negative : collection := {|
  get := get Sample.corpus3;
  query := fun _ _ => {| ids0 := ["a"; "c"; "b"]%string;
                         distances0 := [-(1 # 10000); -(1 # 2); -2] |}
|}.

(** * convert.py: PDF to cleaned text

    File names and texts are Python strings as above.  The directory of
    text files is a finite map from file name to content; writing a file
    succeeds.  [pymupdf] and the generative model are Section variables. *)

Module PyStrExt.

(** [s.endswith(suffix)] *)
Definition endswith (s suffix : string) : bool :=
  (String.length suffix <=? String.length s)%nat
  && String.eqb (String.substring (String.length s - String.length suffix)
                                  (String.length suffix) s)
                suffix.

(** [s[:n]] for [n >= 0] *)
Definition take (n : nat) (s : string) : string := String.substring 0 n s.

(** [s.replace("", new)]: [new] before every character and at the end. *)
Fixpoint interleave (new s : string) : string :=
  match s with
  | EmptyString => new
  | String c s' => String.append new (String c (interleave new s'))
  end.

(** [s.replace(old, new)] for a non-empty [old], scanning from the left:
    [skip] characters of a match just replaced are still to be passed. *)
Fixpoint replace_aux (old new : string) (skip : nat) (s : string) : string :=
  match s with
  | EmptyString => EmptyString
  | String c s' =>
      match skip with
      | S k => replace_aux old new k s'
      | O =>
          if String.prefix old s
          then String.append new
                 (replace_aux old new (String.length old - 1) s')
          else String c (replace_aux old new 0 s')
      end
  end.

(** [s.replace(old, new)] *)
Definition replace (old new s : string) : string :=
  match old with
  | EmptyString => interleave new s
  | String _ _ => replace_aux old new 0 s
  end.

End PyStrExt.

(** The lines [process_all_pdfs] and [clean_text_with_gemini] print. *)
Inductive convert_line : Type :=
| CLineFound (n : nat)             (* "found {n} PDFs in total" *)
| CLineExists (txt_filename : string)  (* "already exists: {txt_filename}" *)
| CLineProcessing (pdf_file : string)  (* "processing: {pdf_file}..." *)
| CLinePdfFailed (e : string)      (* "PDF read failed: {e}" *)
| CLineGeminiFailed (filename e : string)
                                   (* "Gemini conversion failed ({filename}): {e}" *)
| CLineDone                        (* "conversion done!" *).

Section Convert.

(** The text of every page of the PDF of that name in [PDF_DIR]
    ([page.get_text()] for the pages of [pymupdf.open(pdf_path)]), or the
    message of the exception raised on the way. *)
Variable pdf_pages : string -> string + list string.

(** [model.generate_content(prompt).text] for the prompt built from the
    first 30000 characters of the raw text and the file name, or the
    message of the exception. *)
Variable clean_with_model : string -> string -> string + string.

(** [extract_text_from_pdf(pdf_path)]: the page texts, concatenated. *)
Definition extract_text_from_pdf (pdf_file : string) : string + string :=
  match pdf_pages pdf_file with
  | inl e => inl e
  | inr pages => inr (String.concat EmptyString pages)
  end.

(** [clean_text_with_gemini(raw_text, filename)] *)
Definition clean_text_with_gemini (raw_text filename : string)
  : list convert_line * string :=
  match clean_with_model (PyStrExt.take (30 * 1000) raw_text) filename with
  | inr text => ([], text)
  | inl e => ([CLineGeminiFailed filename e], raw_text)
  end.

(** The loop of [process_all_pdfs] over [pdf_files], on the files of
    [TXT_DIR]. *)
Fixpoint convert_loop (pdf_files : list string) (files : gmap string string)
  : list convert_line * gmap string string :=
  match pdf_files with
  | [] => ([], files)
  | pdf_file :: rest =>
      let txt_filename := PyStrExt.replace ".pdf" ".txt" pdf_file in
      match files !! txt_filename with
      | Some _ =>
          let '(out, files') := convert_loop rest files in
          (CLineExists txt_filename :: out, files')
      | None =>
          match extract_text_from_pdf pdf_file with
          | inl e =>
              let '(out, files') := convert_loop rest files in
              (CLineProcessing pdf_file :: CLinePdfFailed e :: out, files')
          | inr raw_text =>
              let '(out1, clean_text) :=
                clean_text_with_gemini raw_text pdf_file in
              let '(out, files') :=
                convert_loop rest (<[txt_filename := clean_text]> files) in
              (CLineProcessing pdf_file :: out1 ++ CLineDone :: out, files')
          end
      end
  end.

(** [f.lower().endswith('.pdf')] *)
Definition is_pdf (f : string) : bool :=
  PyStrExt.endswith (PyStr.lower f) ".pdf".

(** [process_all_pdfs()], given the names in [PDF_DIR] and the files of
    [TXT_DIR] ([None] when the directory does not exist yet): what is
    printed and the files of [TXT_DIR] afterwards. *)
Definition process_all_pdfs (pdf_dir : list string)
    (txt_dir : option (gmap string string))
  : list convert_line * gmap string string :=
  let files := match txt_dir with Some files => files | None => ∅ end in
  let pdf_files := List.filter is_pdf pdf_dir in
  let '(out, files') := convert_loop pdf_files files in
  (CLineFound (length pdf_files) :: out, files').

End Convert.

(** The content [process_all_pdfs] writes for a PDF with these page
    texts: what [clean_text_with_gemini] returns for their
    concatenation. *)
Definition written_text (clean_with_model : string -> string -> string + string)
    (pdf_file : string) (pages : list string) : string :=
  snd (clean_text_with_gemini clean_with_model
         (String.concat EmptyString pages) pdf_file).

(** A sample [PDF_DIR]: a PDF, a file that is no PDF, a PDF with an
    upper-case extension for which the model call fails, and a PDF that
    cannot be read. *)
Module ConvertSample.

Local Open Scope string_scope.

Definition pages (pdf_file : string) : string + list string :=
  if String.eqb pdf_file "bad.pdf" then inl "broken"
  else inr ["page one "; "page two"].

Definition model (raw_text filename : string) : string + string :=
  if String.eqb filename "B.PDF" then inl "quota"
  else inr (String.append "# " filename).

Definition pdf_dir : list string := ["a.pdf"; "notes.txt"; "B.PDF"; "bad.pdf"].

Definition old_files : gmap string string := {["a.txt" := "kept"]}.

End ConvertSample.

(** * rag_builder_txt.py: chunks, embeddings and the database

    The syllabus texts are Korean, so here a Python string is the list of
    its code points, with no bound on them.  File access, the text
    splitter of [langchain], the embedding call and the Chroma client are
    Section variables; path manipulation and [str.lower] on file names,
    which the properties below do not depend on, are Section variables
    too. *)

From Stdlib Require Import DecimalNat.

Module Uni.

Local Open Scope N_scope.

(** A Python [str]: its code points. *)
Definition text : Type := list N.

(** [c.isspace()], which also defines [\s] of [re] on strings. *)
Definition isspace (c : N) : bool :=
  ((0x09 <=? c) && (c <=? 0x0D)) || ((0x1C <=? c) && (c <=? 0x20))
  || (c =? 0x85) || (c =? 0xA0) || (c =? 0x1680)
  || ((0x2000 <=? c) && (c <=? 0x200A))
  || (c =? 0x2028) || (c =? 0x2029) || (c =? 0x202F) || (c =? 0x205F)
  || (c =? 0x3000).

(** The newline character. *)
Definition newline : N := 0x0A.

(** [s.lstrip()] *)
Fixpoint lstrip (s : text) : text :=
  match s with
  | [] => []
  | c :: s' => if isspace c then lstrip s' else s
  end.

(** [s.strip()] *)
Definition strip (s : text) : text := List.rev (lstrip (List.rev (lstrip s))).

(** [s] without its prefix [p], when [s] starts with [p]. *)
Fixpoint strip_prefix (p s : text) : option text :=
  match p with
  | [] => Some s
  | a :: p' =>
      match s with
      | [] => None
      | b :: s' => if (a =? b) then strip_prefix p' s' else None
      end
  end.

(** [a == b] on strings *)
Fixpoint eqb (a b : text) : bool :=
  match a, b with
  | [], [] => true
  | x :: a', y :: b' => (x =? y) && eqb a' b'
  | _, _ => false
  end.

(** The longest prefix of [s] without a newline. *)
Fixpoint line_prefix (s : text) : text :=
  match s with
  | [] => []
  | c :: s' => if (c =? newline) then [] else c :: line_prefix s'
  end.

(** The digits of a decimal number. *)
Fixpoint uint_codes (d : Decimal.uint) : text :=
  match d with
  | Decimal.Nil => []
  | Decimal.D0 d => 0x30 :: uint_codes d
  | Decimal.D1 d => 0x31 :: uint_codes d
  | Decimal.D2 d => 0x32 :: uint_codes d
  | Decimal.D3 d => 0x33 :: uint_codes d
  | Decimal.D4 d => 0x34 :: uint_codes d
  | Decimal.D5 d => 0x35 :: uint_codes d
  | Decimal.D6 d => 0x36 :: uint_codes d
  | Decimal.D7 d => 0x37 :: uint_codes d
  | Decimal.D8 d => 0x38 :: uint_codes d
  | Decimal.D9 d => 0x39 :: uint_codes d
  end.

(** [f"{i}"] for an integer [i >= 0] *)
Definition decimal (i : nat) : text := uint_codes (Nat.to_uint i).

(** The code points of a string of the Latin-1 range. *)
Definition of_string (s : string) : text :=
  map N_of_ascii (list_ascii_of_string s).

End Uni.

Local Open Scope N_scope.

(** The text "담당교수" (professor in charge). *)
Definition label_professor : Uni.text := [0xB2F4; 0xB2F9; 0xAD50; 0xC218].

(** The text "대상학년" (target year). *)
Definition label_grade : Uni.text := [0xB300; 0xC0C1; 0xD559; 0xB144].

(** The text "학점/시간" (credits/hours). *)
Definition label_credit : Uni.text := [0xD559; 0xC810; 0x2F; 0xC2DC; 0xAC04].

(** The text "정보없음" (no information). *)
Definition no_info : Uni.text := [0xC815; 0xBCF4; 0xC5C6; 0xC74C].

(** The literal start of the patterns, ["**" + label + ":**"]. *)
Definition label_literal (label : Uni.text) : Uni.text :=
  [0x2A; 0x2A] ++ label ++ [0x3A; 0x2A; 0x2A].

(** [([^\n]+)] at the start of [s]: the longest run of characters other
    than newline, which must not be empty. *)
Definition match_group (s : Uni.text) : option Uni.text :=
  match Uni.line_prefix s with
  | [] => None
  | g => Some g
  end.

(** [\s*([^\n]+)] at the start of [s]: [\s*] takes as many whitespace
    characters as it can and gives them back one at a time until the
    group matches. *)
Fixpoint match_value (s : Uni.text) : option Uni.text :=
  match s with
  | [] => None
  | c :: s' =>
      if Uni.isspace c then
        match match_value s' with
        | Some g => Some g
        | None => match_group s
        end
      else match_group s
  end.

(** [re.search(literal + r"\s*([^\n]+)", text)]: the group of the
    leftmost match, if there is a match. *)
Fixpoint search_field (literal s : Uni.text) : option Uni.text :=
  let here :=
    match Uni.strip_prefix literal s with
    | Some rest => match_value rest
    | None => None
    end in
  match here with
  | Some g => Some g
  | None =>
      match s with
      | [] => None
      | _ :: s' => search_field literal s'
      end
  end.

(** The dictionary [info] of [extract_core_info]. *)
Record core_info : Type := {
  professor : Uni.text;
  grade : Uni.text;
  credit : Uni.text
}.

(** One entry of [info]: the stripped group of the match, or "정보없음". *)
Definition extract_field (label text : Uni.text) : Uni.text :=
  match search_field (label_literal label) text with
  | Some g => Uni.strip g
  | None => no_info
  end.

(** [extract_core_info(text)] *)
Definition extract_core_info (text : Uni.text) : core_info :=
  {| professor := extract_field label_professor text;
     grade := extract_field label_grade text;
     credit := extract_field label_credit text |}.

(** One entry of [all_metadatas]. *)
Record metadata : Type := {
  md_source : Uni.text;
  md_professor : Uni.text;
  md_grade : Uni.text
}.

(** [f"[강의명: {file_name} | 교수: {professor} | 학년: {grade}]"] *)
Definition header_tag (file_name prof gr : Uni.text) : Uni.text :=
  [0x5B; 0xAC15; 0xC758; 0xBA85; 0x3A; 0x20] ++ file_name
  ++ [0x20; 0x7C; 0x20; 0xAD50; 0xC218; 0x3A; 0x20] ++ prof
  ++ [0x20; 0x7C; 0x20; 0xD559; 0xB144; 0x3A; 0x20] ++ gr
  ++ [0x5D].

(** [f"{header_tag}\n{chunk}"] *)
Definition enhanced_chunk (header chunk : Uni.text) : Uni.text :=
  header ++ [Uni.newline] ++ chunk.

(** The lines the builder prints. *)
Inductive build_line : Type :=
| BLineLoadStart (n : nat)         (* "file processing start ({n})" *)
| BLineFileOk (file_name prof : Uni.text) (* "{file_name} -> professor: ..." *)
| BLineFileError (path e : Uni.text)      (* "file error {path}: {e}" *)
| BLineEmbedStart (total : nat)    (* "embedding start ({total} in total)" *)
| BLineProgress (done total : nat) (* "{done}/{total} processed" *)
| BLineBatchError (e : Uni.text)   (* "batch error: {e}" *)
| BLineEmbedDone                   (* "embedding done" *)
| BLineDirCreated                  (* "folder did not exist, created it" *)
| BLineNoFiles                     (* "no files in the folder" *)
| BLineCountError                  (* "embedding count error" *)
| BLineSaving                      (* "saving to ChromaDB" *)
| BLineOldDeleted                  (* "old DB deleted" *)
| BLineSaved (count : nat)         (* "saved ({count} in total)" *)
| BLineDbError (e : Uni.text)      (* "DB save error: {e}" *).

(** The inner loop of [load_and_chunk_files]: every chunk of one file is
    appended with its header, and its metadata beside it. *)
Fixpoint inject (file_name : Uni.text) (info : core_info)
    (chunks : list Uni.text)
    (all_chunks : list Uni.text) (all_metadatas : list metadata)
  : list Uni.text * list metadata :=
  match chunks with
  | [] => (all_chunks, all_metadatas)
  | chunk :: rest =>
      let header := header_tag file_name (professor info) (grade info) in
      inject file_name info rest
        (all_chunks ++ [enhanced_chunk header chunk])
        (all_metadatas ++ [{| md_source := file_name;
                              md_professor := professor info;
                              md_grade := grade info |}])
  end.

(** [batch_size = 10] *)
Definition batch_size : nat := 10.

(** [range(0, stop, step)] for [step > 0] *)
Definition range_step (stop step : nat) : list nat :=
  map (fun j => (j * step)%nat) (seq 0 ((stop + step - 1) / step)).

(** The arguments of [collection.add]. *)
Record add_request : Type := {
  add_documents : list Uni.text;
  add_embeddings : list (list Q);
  add_metadatas : list metadata;
  add_ids : list Uni.text
}.

(** The calls [build_rag_database] makes on the Chroma client. *)
Inductive db_call : Type :=
| DbListCollections
| DbDeleteCollection
| DbGetOrCreateCollection
| DbAdd (r : add_request).

(** [f"doc_{i}"] *)
Definition doc_id (i : nat) : Uni.text :=
  [0x64; 0x6F; 0x63; 0x5F] ++ Uni.decimal i.

(** [COLLECTION_NAME = "txt_collection"] *)
Definition COLLECTION_NAME : Uni.text := Uni.of_string "txt_collection".

Local Close Scope N_scope.

Section Builder.

(** [os.path.splitext(os.path.basename(path))[0]] *)
Variable file_stem : Uni.text -> Uni.text.

(** The content of the file at [path], read as UTF-8, or the message of
    the exception. *)
Variable read_file : Uni.text -> Uni.text + Uni.text.

(** [splitter.split_text(raw_text)], or the message of the exception. *)
Variable split_text : Uni.text -> Uni.text + list Uni.text.

(** [genai.embed_content(content=batch, ...)]: the value under
    ['embedding'] ([None] when the key is missing), or the message of the
    exception. *)
Variable embed_batch : list Uni.text -> Uni.text + option (list (list Q)).

(** [f.lower().endswith(".txt")] *)
Variable is_txt : Uni.text -> bool.

(** [os.path.join(TXT_DIR, f)] *)
Variable join_txt_dir : Uni.text -> Uni.text.

(** The loop of [load_and_chunk_files] over [txt_files]. *)
Fixpoint load_loop (txt_files : list Uni.text)
    (all_chunks : list Uni.text) (all_metadatas : list metadata)
  : list build_line * (list Uni.text * list metadata) :=
  match txt_files with
  | [] => ([], (all_chunks, all_metadatas))
  | path :: rest =>
      let file_name := file_stem path in
      match read_file path with
      | inl e =>
          let '(out, r) := load_loop rest all_chunks all_metadatas in
          (BLineFileError path e :: out, r)
      | inr raw_text =>
          let info := extract_core_info raw_text in
          match split_text raw_text with
          | inl e =>
              let '(out, r) := load_loop rest all_chunks all_metadatas in
              (BLineFileError path e :: out, r)
          | inr chunks =>
              let '(all_chunks', all_metadatas') :=
                inject file_name info chunks all_chunks all_metadatas in
              let '(out, r) := load_loop rest all_chunks' all_metadatas' in
              (BLineFileOk file_name (professor info) :: out, r)
          end
      end
  end.

(** [load_and_chunk_files(txt_files)] *)
Definition load_and_chunk_files (txt_files : list Uni.text)
  : list build_line * (list Uni.text * list metadata) :=
  let '(out, r) := load_loop txt_files [] [] in
  (BLineLoadStart (length txt_files) :: out, r).

(** The loop of [get_embeddings_for_chunks] over the batch starts. *)
Fixpoint embed_loop (starts : list nat) (chunks : list Uni.text)
    (total : nat) (embeddings : list (list Q))
  : list build_line * list (list Q) :=
  match starts with
  | [] => ([], embeddings)
  | i :: rest =>
      let batch := firstn batch_size (skipn i chunks) in
      match embed_batch batch with
      | inr result =>
          let embeddings' :=
            match result with
            | Some es => embeddings ++ es
            | None => embeddings
            end in
          let '(out, r) := embed_loop rest chunks total embeddings' in
          (BLineProgress (Nat.min (i + batch_size) total) total :: out, r)
      | inl e =>
          let '(out, r) := embed_loop rest chunks total embeddings in
          (BLineBatchError e :: out, r)
      end
  end.

(** [get_embeddings_for_chunks(chunks)] *)
Definition get_embeddings_for_chunks (chunks : list Uni.text)
  : list build_line * list (list Q) :=
  let total := length chunks in
  let '(out, embeddings) :=
    embed_loop (range_step total batch_size) chunks total [] in
  (BLineEmbedStart total :: out ++ [BLineEmbedDone], embeddings).

(** How the Chroma client answers: the names of the existing collections,
    whether deleting and creating the collection raise, and the count
    after [collection.add] or the message of the exception it raises. *)
Record db_client : Type := {
  db_list_collections : Uni.text + list Uni.text;
  db_delete_collection : option Uni.text;
  db_get_or_create_collection : option Uni.text;
  db_add : add_request -> Uni.text + nat
}.

(** The [try] block of [build_rag_database]: the lines printed and the
    calls made on the client, in order. *)
Definition store (db : db_client) (chunks : list Uni.text)
    (embeddings : list (list Q)) (metadatas : list metadata)
  : list build_line * list db_call :=
  match db_list_collections db with
  | inl e => ([BLineDbError e], [DbListCollections])
  | inr existing =>
      let '(out1, calls1, failed) :=
        if existsb (fun name => Uni.eqb COLLECTION_NAME name) existing
        then match db_delete_collection db with
             | Some e => ([BLineDbError e],
                          [DbListCollections; DbDeleteCollection], true)
             | None => ([BLineOldDeleted],
                        [DbListCollections; DbDeleteCollection], false)
             end
        else ([], [DbListCollections], false) in
      if (failed : bool) then (out1, calls1)
      else
        match db_get_or_create_collection db with
        | Some e =>
            (out1 ++ [BLineDbError e], calls1 ++ [DbGetOrCreateCollection])
        | None =>
            let ids := map doc_id (seq 0 (length chunks)) in
            let request := {| add_documents := chunks;
                              add_embeddings := embeddings;
                              add_metadatas := metadatas;
                              add_ids := ids |} in
            let calls := calls1 ++ [DbGetOrCreateCollection; DbAdd request] in
            match db_add db request with
            | inl e => (out1 ++ [BLineDbError e], calls)
            | inr count => (out1 ++ [BLineSaved count], calls)
            end
        end
  end.

(** [build_rag_database()], given the names in [TXT_DIR] ([None] when the
    directory does not exist) and the client: the lines printed, whether
    the directory was created, and the calls made on the client. *)
Definition build_rag_database (txt_dir : option (list Uni.text))
    (db : db_client) : list build_line * bool * list db_call :=
  match txt_dir with
  | None => ([BLineDirCreated], true, [])
  | Some names =>
      let txt_files := map join_txt_dir (List.filter is_txt names) in
      match txt_files with
      | [] => ([BLineNoFiles], false, [])
      | _ :: _ =>
          let '(out1, (chunks, metadatas)) :=
            load_and_chunk_files txt_files in
          let '(out2, embeddings) := get_embeddings_for_chunks chunks in
          if negb (length embeddings =? length chunks)%nat
          then (out1 ++ out2 ++ [BLineCountError], false, [])
          else
            let '(out3, calls) := store db chunks embeddings metadatas in
            (out1 ++ out2 ++ BLineSaving :: out3, false, calls)
      end
  end.

End Builder.

(** ** Vocabulary for the builder *)

(** [lit in s] on code-point strings. *)
Fixpoint occursb (lit s : Uni.text) : bool :=
  match Uni.strip_prefix lit s with
  | Some _ => true
  | None =>
      match s with
      | [] => false
      | _ :: s' => occursb lit s'
      end
  end.

(** The three entries of [info] with their labels. *)
Definition core_fields : list (Uni.text * (core_info -> Uni.text)) :=
  [(label_professor, professor); (label_grade, grade); (label_credit, credit)].

(** What one file contributes to [all_chunks] and [all_metadatas]: nothing
    when reading or splitting raises, else every chunk with its header,
    paired with its metadata. *)
Definition file_entries (file_stem : Uni.text -> Uni.text)
    (read_file : Uni.text -> Uni.text + Uni.text)
    (split_text : Uni.text -> Uni.text + list Uni.text)
    (path : Uni.text) : list (Uni.text * metadata) :=
  match read_file path with
  | inl _ => []
  | inr raw_text =>
      match split_text raw_text with
      | inl _ => []
      | inr chunks =>
          let info := extract_core_info raw_text in
          map (fun chunk =>
                 (enhanced_chunk
                    (header_tag (file_stem path) (professor info) (grade info))
                    chunk,
                  {| md_source := file_stem path;
                     md_professor := professor info;
                     md_grade := grade info |}))
              chunks
      end
  end.

(** The batch that starts at chunk [i], [chunks[i : i + batch_size]]. *)
Definition batch_at (chunks : list Uni.text) (i : nat) : list Uni.text :=
  firstn batch_size (skipn i chunks).

(** The embeddings a batch adds: the provider's list, or nothing when the
    call raises or its answer has no embedding. *)
Definition batch_embeddings
    (embed_batch : list Uni.text -> Uni.text + option (list (list Q)))
    (batch : list Uni.text) : list (list Q) :=
  match embed_batch batch with
  | inr (Some es) => es
  | _ => []
  end.

(** A sample syllabus, "* **담당교수:** 오민식" and, on the next line,
    "* **대상학년:** 3학년", and a sample builder environment. *)
Module BuildSample.

Local Open Scope N_scope.

Definition syllabus : Uni.text :=
  [0x2A; 0x20] ++ label_literal label_professor
  ++ [0x20; 0xC624; 0xBBFC; 0xC2DD; 0x0A]
  ++ [0x2A; 0x20] ++ label_literal label_grade
  ++ [0x20; 0x33; 0xD559; 0xB144].

Definition file_stem (path : Uni.text) : Uni.text := path.

Definition read_file (path : Uni.text) : Uni.text + Uni.text :=
  if Uni.eqb path (Uni.of_string "bad") then inl (Uni.of_string "missing")
  else inr syllabus.

(** Chunks of at most five characters. *)
Fixpoint pieces (fuel : nat) (s : Uni.text) : list Uni.text :=
  match fuel, s with
  | O, _ | _, [] => []
  | S fuel', _ => firstn 5 s :: pieces fuel' (skipn 5 s)
  end.

Definition split_text (raw_text : Uni.text) : Uni.text + list Uni.text :=
  inr (pieces (length raw_text) raw_text).

Definition embedding_of (chunk : Uni.text) : list Q :=
  [inject_Z (Z.of_nat (length chunk))].

Definition embed_batch (batch : list Uni.text)
  : Uni.text + option (list (list Q)) :=
  inr (Some (map embedding_of batch)).

(** A provider that fails on batches of fewer than ten chunks. *)
Definition embed_full_only (batch : list Uni.text)
  : Uni.text + option (list (list Q)) :=
  if (length batch <? 10)%nat then inl (Uni.of_string "quota")
  else inr (Some (map embedding_of batch)).

Definition is_txt (f : Uni.text) : bool :=
  negb (Uni.eqb f (Uni.of_string "skip")).

Definition join_txt_dir (f : Uni.text) : Uni.text := f.

Definition db : db_client := {|
  db_list_collections := inr [COLLECTION_NAME];
  db_delete_collection := None;
  db_get_or_create_collection := None;
  db_add := fun r => inr (length (add_documents r))
|}.

Definition names : list Uni.text :=
  [Uni.of_string "stats"; Uni.of_string "skip"; Uni.of_string "bad"].

End BuildSample.

(** * Properties *)

(** ** The monad *)

Lemma bind_ret_l {A B} (a : A) (f : A -> M B) : bind (ret a) f = f a.
Proof. unfold bind, ret. destruct (f a) as [out r]. reflexivity. Qed.

Lemma bind_raise {A B} (e : exn) (f : A -> M B) : bind (raise e) f = raise e.
Proof. reflexivity. Qed.

Lemma bind_print {B} (l : line) (m : M B) :
  bind (print l) (fun _ => m) = (l :: fst m, snd m).
Proof. unfold bind, print. destruct m as [out r]. reflexivity. Qed.

(** ** Comparisons on scores *)

Lemma Qltb_lt (x y : Q) : Qltb x y = true <-> x < y.
Proof.
  unfold Qltb. rewrite negb_true_iff. split.
  - intros H. apply Qnot_le_lt. intros Hle.
    apply Qle_bool_iff in Hle. congruence.
  - intros H. destruct (Qle_bool y x) eqn:E; [|reflexivity].
    apply Qle_bool_iff in E. exfalso. apply (Qlt_not_le _ _ H E).
Qed.

Lemma Qltb_ge (x y : Q) : Qltb x y = false <-> y <= x.
Proof.
  unfold Qltb. rewrite negb_false_iff. apply Qle_bool_iff.
Qed.

(** ** The stable descending sort *)

Lemma insert_desc_perm x l : Permutation (insert_desc x l) (x :: l).
Proof.
  induction l as [|y l IH]; simpl; [reflexivity|].
  destruct (Qltb (fst x) (fst y)); [|reflexivity].
  rewrite IH. apply perm_swap.
Qed.

Lemma sort_desc_perm l : Permutation (sort_desc l) l.
Proof.
  induction l as [|x l IH]; simpl; [reflexivity|].
  rewrite insert_desc_perm. now apply perm_skip.
Qed.

Lemma insert_desc_sorted x l :
  StronglySorted desc l -> StronglySorted desc (insert_desc x l).
Proof.
  induction l as [|y l IH]; simpl; intros Hs.
  - constructor; constructor.
  - inversion Hs as [|? ? Hl Hy]; subst.
    destruct (Qltb (fst x) (fst y)) eqn:E.
    + constructor; [now apply IH|].
      apply (Permutation_Forall (Permutation_sym (insert_desc_perm x l))).
      constructor; [|exact Hy].
      apply Qltb_lt in E. unfold desc. now apply Qlt_le_weak.
    + apply Qltb_ge in E. constructor; [exact Hs|].
      constructor; [exact E|].
      eapply List.Forall_impl; [|exact Hy].
      intros z Hz. unfold desc in *. now apply Qle_trans with (fst y).
Qed.

Lemma sort_desc_sorted l : StronglySorted desc (sort_desc l).
Proof.
  induction l as [|x l IH]; simpl; [constructor|].
  now apply insert_desc_sorted.
Qed.

Lemma insert_desc_with_score s x l :
  with_score s (insert_desc x l) = with_score s (x :: l).
Proof.
  induction l as [|y l IH]; [reflexivity|].
  simpl insert_desc. destruct (Qltb (fst x) (fst y)) eqn:E; [|reflexivity].
  unfold with_score in *. simpl in *.
  destruct (Qeq_bool (fst y) s) eqn:Ey, (Qeq_bool (fst x) s) eqn:Ex;
    rewrite IH; try reflexivity.
  exfalso. apply Qltb_lt in E.
  apply Qeq_bool_iff in Ex. apply Qeq_bool_iff in Ey.
  rewrite Ex, Ey in E. exact (Qlt_irrefl _ E).
Qed.

Lemma sort_desc_with_score s l :
  with_score s (sort_desc l) = with_score s l.
Proof.
  induction l as [|x l IH]; [reflexivity|].
  simpl sort_desc. rewrite insert_desc_with_score.
  unfold with_score in *. simpl. now rewrite IH.
Qed.

Lemma sort_desc_length l : length (sort_desc l) = length l.
Proof. apply Permutation_length, sort_desc_perm. Qed.

(** ** Slices *)

Lemma slice_to_all {A} (l : list A) (k : Z) :
  (Z.of_nat (length l) <= k)%Z -> slice_to l k = l.
Proof.
  intros H. unfold slice_to.
  destruct (0 <=? k)%Z eqn:E; [|lia].
  apply firstn_all2. lia.
Qed.

Lemma slice_to_nonneg {A} (l : list A) (k : Z) :
  (0 <= k)%Z -> slice_to l k = firstn (Z.to_nat k) l.
Proof.
  intros H. unfold slice_to. destruct (0 <=? k)%Z eqn:E; [reflexivity|lia].
Qed.

(** ** Maximum *)

Lemma max_from_ge (l : list Q) : forall cur,
  cur <= max_from cur l /\ Forall (fun y => y <= max_from cur l) l.
Proof.
  induction l as [|y l IH]; intros cur; simpl.
  - split; [apply Qle_refl|constructor].
  - destruct (IH (if Qltb cur y then y else cur)) as [H1 H2].
    destruct (Qltb cur y) eqn:E.
    + apply Qltb_lt in E. split; [|constructor; assumption].
      apply Qle_trans with y; [now apply Qlt_le_weak|exact H1].
    + apply Qltb_ge in E. split; [exact H1|constructor; [|exact H2]].
      now apply Qle_trans with cur.
Qed.

Lemma max_from_in (l : list Q) : forall cur,
  max_from cur l = cur \/ In (max_from cur l) l.
Proof.
  induction l as [|y l IH]; intros cur; simpl; [now left|].
  destruct (IH (if Qltb cur y then y else cur)) as [H|H].
  - rewrite H. destruct (Qltb cur y); [right; now left|now left].
  - right; now right.
Qed.

Lemma max_distance_ge (distances : list Q) :
  Forall (fun d => d <= max_distance distances) distances.
Proof.
  destruct distances as [|d l]; [constructor|]. simpl.
  destruct (max_from_ge l d). now constructor.
Qed.

Lemma max_distance_nonneg (distances : list Q) :
  Forall (fun d => 0 <= d) distances -> 0 <= max_distance distances.
Proof.
  destruct distances as [|d l]; simpl; intros H; [discriminate|].
  inversion H; subst. destruct (max_from_ge l d) as [H1 _].
  now apply Qle_trans with d.
Qed.

(** ** BM25 normalisation *)

Lemma normalize_cons (x : Q) (l : list Q) :
  normalize (x :: l) =
  ret (if Qltb 0 (max_from x l)
       then map (fun s => s / max_from x l) (x :: l) else x :: l).
Proof.
  unfold normalize, np_max. rewrite bind_ret_l.
  now destruct (Qltb 0 (max_from x l)).
Qed.

Lemma normalize_length (raw sn : list Q) :
  normalize raw = ret sn -> length sn = length raw.
Proof.
  destruct raw as [|x l]; [discriminate|].
  rewrite normalize_cons. intros H. injection H as <-.
  destruct (Qltb 0 (max_from x l)); [|reflexivity].
  simpl. now rewrite length_map.
Qed.

(** ** Dense scores *)

Lemma py_div_ok (x y : Q) : ~ y == 0 -> py_div x y = ret (x / y).
Proof.
  intros H. unfold py_div. destruct (Qeq_bool y 0) eqn:E; [|reflexivity].
  apply Qeq_bool_iff in E. contradiction.
Qed.

Lemma dense_score_ok (max_dist dist : Q) :
  ~ max_dist + epsilon == 0 ->
  dense_score max_dist dist = ret (1 - dist / (max_dist + epsilon)).
Proof.
  intros H. unfold dense_score. rewrite py_div_ok by exact H.
  now rewrite bind_ret_l.
Qed.

Lemma vector_scores_ok (max_dist : Q) (pairs : list (string * Q)) :
  ~ max_dist + epsilon == 0 ->
  forall m, vector_scores max_dist pairs m = ret (dense_map max_dist pairs m).
Proof.
  intros H. induction pairs as [|[doc_id dist] rest IH]; intros m; simpl.
  - reflexivity.
  - rewrite dense_score_ok by exact H. rewrite bind_ret_l. apply IH.
Qed.

Lemma dense_map_notin (max_dist : Q) (doc_id : string)
    (pairs : list (string * Q)) :
  ~ In doc_id (map fst pairs) ->
  forall m : gmap string Q, dense_map max_dist pairs m !! doc_id = m !! doc_id.
Proof.
  induction pairs as [|[i d] rest IH]; intros Hn m; simpl; [reflexivity|].
  simpl in Hn. unfold dense_map in *. simpl.
  rewrite IH by tauto. apply lookup_insert_ne. tauto.
Qed.

Lemma dense_map_in (max_dist : Q) (doc_id : string) (dist : Q)
    (pairs : list (string * Q)) :
  List.NoDup (map fst pairs) -> In (doc_id, dist) pairs ->
  forall m : gmap string Q,
    dense_map max_dist pairs m !! doc_id
    = Some (1 - dist / (max_dist + epsilon)).
Proof.
  induction pairs as [|[i d] rest IH]; intros Hnd Hin m; [destruct Hin|].
  simpl in Hnd. apply List.NoDup_cons_iff in Hnd as [Hni Hnd].
  unfold dense_map in *. simpl.
  destruct Hin as [Heq|Hin].
  - injection Heq as -> ->.
    pose proof (dense_map_notin max_dist doc_id rest) as Hx.
    unfold dense_map in Hx. rewrite Hx.
    + apply lookup_insert_eq.
    + exact Hni.
  - now apply IH.
Qed.

(** ** The fusion loop *)

Lemma skipn_cons_nth {A} (l : list A) : forall i x r,
  skipn i l = x :: r -> nth_error l i = Some x /\ skipn (S i) l = r.
Proof.
  induction l as [|a l IH]; intros i x r H.
  - destruct i; discriminate.
  - destruct i as [|i]; simpl in *.
    + injection H as -> ->. now split.
    + now apply IH.
Qed.

Lemma py_index_nth {A} (l : list A) (i : nat) (a : A) :
  nth_error l i = Some a -> py_index l i = ret a.
Proof. unfold py_index. now intros ->. Qed.

Lemma fuse_ok (q tok : string) (toks : list string)
    (all_docs : list string) (bm25_scores : list Q) (vm : gmap string Q) :
  PyStr.split q = tok :: toks ->
  forall (all_ids : list string) (i : nat) (acc : list (Q * string)),
    (length all_ids <= length (skipn i bm25_scores))%nat ->
    (length all_ids <= length (skipn i all_docs))%nat ->
    fuse q all_docs bm25_scores vm i all_ids acc
    = ret (acc ++ map (fused_entry tok vm)
                     (combine all_ids
                        (combine (skipn i bm25_scores) (skipn i all_docs)))).
Proof.
  intros Hq. induction all_ids as [|doc_id rest IH]; intros i acc Hb Hd.
  - simpl. now rewrite app_nil_r.
  - destruct (skipn i bm25_scores) as [|k kr] eqn:Ek; [simpl in Hb; lia|].
    destruct (skipn i all_docs) as [|d dr] eqn:Ed; [simpl in Hd; lia|].
    apply skipn_cons_nth in Ek as [Hk Ek'].
    apply skipn_cons_nth in Ed as [Hdoc Ed'].
    simpl fuse. rewrite (py_index_nth _ _ _ Hk), bind_ret_l.
    rewrite Hq. change (py_index (tok :: toks) 0) with (ret tok).
    rewrite bind_ret_l.
    rewrite (py_index_nth _ _ _ Hdoc), bind_ret_l.
    rewrite IH.
    + rewrite Ek', Ed'. simpl. now rewrite <- app_assoc.
    + rewrite Ek'. simpl in Hb. lia.
    + rewrite Ed'. simpl in Hd. lia.
Qed.

(** Without a first token the first iteration fails. *)
Lemma fuse_blank (q : string) (all_docs : list string)
    (bm25_scores : list Q) (vm : gmap string Q)
    (doc_id : string) (rest : list string) (k : Q) :
  PyStr.split q = [] -> nth_error bm25_scores 0 = Some k ->
  fuse q all_docs bm25_scores vm 0 (doc_id :: rest) [] = raise IndexError.
Proof.
  intros Hq Hk. simpl fuse.
  rewrite (py_index_nth _ _ _ Hk), bind_ret_l. now rewrite Hq.
Qed.

(** ** The search as a whole *)

Lemma sparse_norm_length (raw : list Q) :
  length (sparse_norm raw) = length raw.
Proof.
  destruct raw as [|x l]; [reflexivity|]. unfold sparse_norm.
  destruct (Qltb 0 (max_from x l)); [|reflexivity].
  now rewrite length_map.
Qed.

Lemma normalize_sparse_norm (raw : list Q) :
  raw <> [] -> normalize raw = ret (sparse_norm raw).
Proof.
  destruct raw as [|x l]; [congruence|]. intros _. apply normalize_cons.
Qed.

Lemma nth_error_combine {A B} (l : list A) :
  forall (l' : list B) i a b,
    nth_error l i = Some a -> nth_error l' i = Some b ->
    nth_error (combine l l') i = Some (a, b).
Proof.
  induction l as [|x l IH]; intros [|y l'] [|i] a b Ha Hb;
    try discriminate; simpl in *.
  - congruence.
  - now apply IH.
Qed.

Lemma fused_nth (c : collection) (raw e : list Q) (tok : string) :
  forall i doc_id s doc,
    nth_error (ids (get c)) i = Some doc_id ->
    nth_error (sparse_norm raw) i = Some s ->
    nth_error (documents (get c)) i = Some doc ->
    nth_error (fused c raw e tok) i
    = Some (boost tok doc
              (weighted_sum alpha s (default 0 (dense_norm c e !! doc_id))),
            doc).
Proof.
  intros i doc_id s doc Hi Hs Hd. unfold fused.
  rewrite nth_error_map.
  rewrite (nth_error_combine _ _ i doc_id (s, doc) Hi
             (nth_error_combine _ _ i s doc Hs Hd)).
  reflexivity.
Qed.

Lemma fused_docs (c : collection) (raw e : list Q) (tok : string) :
  length (ids (get c)) = length (documents (get c)) ->
  length raw = length (documents (get c)) ->
  map snd (fused c raw e tok) = documents (get c).
Proof.
  intros Hi Hr. unfold fused. rewrite <- (sparse_norm_length raw) in Hr.
  revert Hi Hr.
  generalize (ids (get c)) (sparse_norm raw) (documents (get c)).
  induction l as [|i l IH]; intros [|s sn] [|d ds] Hi Hs;
    try discriminate; [reflexivity|].
  simpl in *. f_equal. apply IH; lia.
Qed.

Section SearchFacts.

Variable bm25_get_scores : list (list string) -> list string -> exn + list Q.
Variable embed_content : string -> string + list Q.
Variable generate_content : string -> string -> string + string.

Lemma score_documents_ok q c raw e tok :
  ranks bm25_get_scores embed_content q c raw e tok ->
  score_documents bm25_get_scores embed_content q c
  = ret (Some (fused c raw e tok)).
Proof.
  intros [Hdocs Hids Hbm Hraw Hemb Hne [toks Htok] Hdist].
  unfold score_documents.
  destruct (documents (get c)) as [|d ds] eqn:Ed; [congruence|].
  rewrite <- Ed in *. rewrite Hbm.
  change (([] : list line), (inr raw : exn + list Q)) with (ret raw).
  rewrite bind_ret_l.
  assert (Hr : raw <> []).
  { intros ->. rewrite Ed in Hraw. discriminate. }
  rewrite (normalize_sparse_norm raw Hr), bind_ret_l.
  unfold get_query_embedding. rewrite Hemb, bind_ret_l.
  destruct e as [|x e']; [congruence|].
  rewrite vector_scores_ok by exact Hdist. rewrite bind_ret_l.
  rewrite (fuse_ok q tok toks).
  - rewrite bind_ret_l. reflexivity.
  - exact Htok.
  - rewrite skipn_O, sparse_norm_length. lia.
  - rewrite skipn_O. lia.
Qed.

Lemma hybrid_search_ok q c raw e tok k :
  ranks bm25_get_scores embed_content q c raw e tok ->
  hybrid_search bm25_get_scores embed_content q c k
  = ([LineSearchStart],
     inr (map snd (slice_to (sort_desc (fused c raw e tok)) k))).
Proof.
  intros H. unfold hybrid_search.
  rewrite (score_documents_ok q c raw e tok H), bind_ret_l.
  reflexivity.
Qed.

End SearchFacts.

(** ** Strings *)

Lemma lower_char_idem (c : ascii) :
  PyStr.lower_char (PyStr.lower_char c) = PyStr.lower_char c.
Proof. destruct c as [[] [] [] [] [] [] [] []]; reflexivity. Qed.

Lemma lower_idem (s : string) : PyStr.lower (PyStr.lower s) = PyStr.lower s.
Proof.
  induction s as [|c s IH]; simpl; [reflexivity|].
  now rewrite lower_char_idem, IH.
Qed.

Lemma split_aux_cur (s : string) : forall c cur,
  PyStr.split_aux (String c cur) s <> [].
Proof.
  induction s as [|a s IH]; intros c cur; simpl; [discriminate|].
  destruct (PyStr.isspace a); [discriminate|apply IH].
Qed.

Lemma split_blank (s : string) : blank s = true <-> PyStr.split s = [].
Proof.
  unfold PyStr.split. induction s as [|c s IH]; simpl; [tauto|].
  destruct (PyStr.isspace c); simpl; [exact IH|].
  split; [discriminate|]. intros H. now apply split_aux_cur in H.
Qed.

(** The sample collection ranks for the query "stats Oh". *)
Lemma corpus3_ranks :
  ranks Sample.term_overlap Sample.embed_ok "stats Oh" Sample.corpus3
        Sample.raw3 [1; 0] "stats".
Proof.
  constructor; try reflexivity; try discriminate.
  now exists ["Oh"].
Qed.

(** The two best documents of the sample collection for "stats Oh":
    both contain both query words; "stats lab Oh" also gets the bonus and
    overtakes "Stats intro Oh", whose capital letter hides the token. *)
Example sample_top2 :
  hybrid_search Sample.term_overlap Sample.embed_ok "stats Oh"
    Sample.corpus3 2
  = ([LineSearchStart], inr ["stats lab Oh"; "Stats intro Oh"]%string).
Proof. reflexivity. Qed.

(** An empty embedding ends the search without any printed cause. *)
Example sample_empty_embedding :
  hybrid_search Sample.term_overlap Sample.embed_nothing "stats Oh"
    Sample.corpus3 7
  = ([LineSearchStart], inr []).
Proof. reflexivity. Qed.

(** * The ranking engine, claim by claim *)

Section Fusion.

Variable bm25_get_scores : list (list string) -> list string -> exn + list Q.
Variable embed_content : string -> string + list Q.

(** C1. In a run that reaches the ranking, [final_scores] has one entry per
    document, in corpus order, and the score of document [i] before the
    boost is [alpha * sparse_norm[i] + (1 - alpha) * dense_norm[i]], where
    [sparse_norm] is the normalised BM25 vector, [dense_norm] the dense
    score stored for the document's id (0 when the id has none), and
    [alpha] is 0.6, a weight in [0,1]. *)
Theorem C1_fused_score (q : string) (c : collection) (raw e : list Q)
    (tok : string) :
  ranks bm25_get_scores embed_content q c raw e tok ->
  normalize raw = ret (sparse_norm raw) /\
  score_documents bm25_get_scores embed_content q c
  = ret (Some (fused c raw e tok)) /\
  length (fused c raw e tok) = length (documents (get c)) /\
  (forall i doc_id doc,
      nth_error (ids (get c)) i = Some doc_id ->
      nth_error (documents (get c)) i = Some doc ->
      exists s total,
        nth_error (sparse_norm raw) i = Some s /\
        nth_error (fused c raw e tok) i = Some (boost tok doc total, doc) /\
        total == alpha * s
                 + (1 - alpha) * default 0 (dense_norm c e !! doc_id)) /\
  alpha == 6 # 10 /\ 0 <= alpha <= 1.
Proof.
  intros H. pose proof (score_documents_ok _ _ _ _ _ _ _ H) as Hs.
  destruct H as [Hdocs Hids Hbm Hraw Hemb Hne Htok Hdist].
  assert (Hr : raw <> []).
  { intros ->. destruct (documents (get c)); [congruence|discriminate]. }
  split; [now apply normalize_sparse_norm|].
  split; [exact Hs|].
  split.
  { rewrite <- (length_map snd), fused_docs; auto. }
  split; [|split; [reflexivity|split; discriminate]].
  intros i doc_id doc Hi Hd.
  destruct (nth_error (sparse_norm raw) i) as [s|] eqn:Es.
  - exists s, (weighted_sum alpha s (default 0 (dense_norm c e !! doc_id))).
    split; [reflexivity|].
    split; [now apply fused_nth|].
    unfold weighted_sum. ring.
  - apply nth_error_None in Es. rewrite sparse_norm_length, Hraw in Es.
    assert (Hd' : nth_error (documents (get c)) i <> None) by congruence.
    apply nth_error_Some in Hd'. lia.
Qed.

(** C2. In a run that reaches the ranking, the result is the documents of
    the first [k] pairs of the stable descending sort of [final_scores]:
    the sorted list is a permutation of [final_scores], descending by
    score, with pairs of equal score in their corpus order; for [k] at
    least the corpus size nothing is cut, and the result holds every
    document exactly once. *)
Theorem C2_sorted_top_k (q : string) (c : collection) (raw e : list Q)
    (tok : string) (k : Z) :
  ranks bm25_get_scores embed_content q c raw e tok ->
  let ranked := sort_desc (fused c raw e tok) in
  hybrid_search bm25_get_scores embed_content q c k
  = ([LineSearchStart], inr (map snd (slice_to ranked k))) /\
  Permutation ranked (fused c raw e tok) /\
  StronglySorted desc ranked /\
  (forall s, with_score s ranked = with_score s (fused c raw e tok)) /\
  ((0 <= k)%Z -> slice_to ranked k = firstn (Z.to_nat k) ranked) /\
  ((Z.of_nat (length (documents (get c))) <= k)%Z ->
   slice_to ranked k = ranked /\
   Permutation (map snd (slice_to ranked k)) (documents (get c))).
Proof.
  intros H ranked.
  split; [now apply hybrid_search_ok|].
  split; [apply sort_desc_perm|].
  split; [apply sort_desc_sorted|].
  split; [intros s; apply sort_desc_with_score|].
  split; [apply slice_to_nonneg|].
  intros Hk. destruct H as [_ Hids _ Hraw _ _ _ _].
  assert (Hall : slice_to ranked k = ranked).
  { apply slice_to_all. unfold ranked.
    rewrite sort_desc_length, <- (length_map snd), fused_docs; auto. }
  split; [exact Hall|]. rewrite Hall.
  rewrite <- (fused_docs c raw e tok Hids Hraw).
  apply Permutation_map, sort_desc_perm.
Qed.


End Fusion.

(** The ranking of the sample collection for "stats Oh". *)
Lemma C1_fused_score_witness :
  exists s total,
    nth_error (sparse_norm Sample.raw3) 0 = Some s /\
    nth_error (fused Sample.corpus3 Sample.raw3 [1; 0] "stats") 0
    = Some (boost "stats" "Stats intro Oh" total, "Stats intro Oh"%string) /\
    total == alpha * s
             + (1 - alpha)
               * default 0 (dense_norm Sample.corpus3 [1; 0] !! "a"%string).
Proof.
  destruct (C1_fused_score _ _ _ _ _ _ _ corpus3_ranks)
    as (_ & _ & _ & H & _).
  apply (H 0%nat); reflexivity.
Defined.

Lemma C2_sorted_top_k_witness :
  hybrid_search Sample.term_overlap Sample.embed_ok "stats Oh" Sample.corpus3 3
  = ([LineSearchStart],
     inr (map snd (slice_to
            (sort_desc (fused Sample.corpus3 Sample.raw3 [1; 0] "stats")) 3))).
Proof.
  apply (C2_sorted_top_k _ _ _ _ _ _ _ 3%Z corpus3_ranks).
Defined.


(** A score above 1 in the sample ranking: sparse 1, dense about 0.75 and
    the bonus. *)
Example boosted_above_one :
  exists total,
    nth_error (fused Sample.corpus3 Sample.raw3 [1; 0] "stats") 2
    = Some (total, "stats lab Oh"%string) /\ 1 < total.
Proof. eexists. split; [reflexivity|]. vm_compute. reflexivity. Qed.

(** ** Dense scores *)

Lemma max_distance_in (distances : list Q) :
  distances <> [] -> In (max_distance distances) distances.
Proof.
  destruct distances as [|d l]; [congruence|]. intros _. simpl.
  destruct (max_from_in l d) as [H|H]; [left; now rewrite H|now right].
Qed.

Lemma epsilon_pos : 0 < epsilon.
Proof. reflexivity. Qed.

Lemma nonneg_divisor (distances : list Q) :
  Forall (fun d => 0 <= d) distances ->
  0 < max_distance distances + epsilon.
Proof.
  intros H. apply max_distance_nonneg in H.
  pose proof epsilon_pos. lra.
Qed.

Lemma In_combine_nth {A B} (l : list A) (l' : list B) i a b :
  nth_error l i = Some a -> nth_error l' i = Some b -> In (a, b) (combine l l').
Proof.
  intros Ha Hb. apply (nth_error_In _ i).
  now apply nth_error_combine.
Qed.

Lemma map_fst_combine_NoDup {A B} (l : list A) :
  forall l' : list B, List.NoDup l -> List.NoDup (map fst (combine l l')).
Proof.
  induction l as [|a l IH]; intros [|b l'] H; simpl;
    try apply List.NoDup_nil.
  apply List.NoDup_cons_iff in H as [Hn H]. apply List.NoDup_cons.
  - intros Hin. apply Hn.
    apply in_map_iff in Hin as [[a' b'] [Heq Hin]]. simpl in Heq. subst a'.
    now apply in_combine_l in Hin.
  - now apply IH.
Qed.

Lemma Qdiv_le_iff (a b c : Q) : 0 < c -> (a / c <= b <-> a <= b * c).
Proof.
  intros Hc. split.
  - intros H. assert (E : a == a / c * c) by (field; lra).
    rewrite E. apply Qmult_le_compat_r; [exact H|lra].
  - now apply Qle_shift_div_r.
Qed.

Lemma max_distance_all (distances : list Q) (d : Q) :
  distances <> [] -> Forall (fun x => x == d) distances ->
  max_distance distances == d.
Proof.
  intros Hne Hall. apply max_distance_in in Hne.
  rewrite List.Forall_forall in Hall. now apply Hall.
Qed.

(** C4. When the ids returned by the vector query are distinct and the
    divisor is not zero, the loop stores for every returned document the
    score [1 - distance / (max_distance + epsilon)], where [max_distance]
    is the largest of the returned distances and [epsilon] is 0.0001.  For
    non-negative distances the divisor is positive, every score lies in
    [0,1] and a smaller distance gives a score at least as large.
    Distance 0 scores 1, and the largest distance scores
    [epsilon / (max_distance + epsilon)], which is positive, is 1 when
    [max_distance] is 0, and is at most [t] exactly when
    [epsilon * (1 - t) <= t * max_distance]: the farthest document is near
    0 only when [max_distance] is large against [epsilon].  A document
    scores at least [1 - t] exactly when its distance is at most
    [t * (max_distance + epsilon)]: the closest document is near 1 only
    when its distance is small against [max_distance].  Documents that are
    all at the same distance [d] all score [epsilon / (d + epsilon)]. *)
Theorem C4_dense_score (c : collection) (e : list Q) :
  let vector_results := query c e (length (documents (get c))) in
  let distances := distances0 vector_results in
  let max_dist := max_distance distances in
  let score := fun dist => 1 - dist / (max_dist + epsilon) in
  List.NoDup (ids0 vector_results) ->
  ~ max_dist + epsilon == 0 ->
  vector_scores max_dist (combine (ids0 vector_results) distances) ∅
  = ret (dense_norm c e) /\
  epsilon == 1 # 10000 /\
  Forall (fun d => d <= max_dist) distances /\
  (distances <> [] -> In max_dist distances) /\
  (forall j doc_id dist,
      nth_error (ids0 vector_results) j = Some doc_id ->
      nth_error distances j = Some dist ->
      dense_norm c e !! doc_id = Some (score dist)) /\
  (Forall (fun d => 0 <= d) distances ->
   0 < max_dist + epsilon /\
   (forall dist, In dist distances -> 0 <= score dist <= 1) /\
   (forall dist dist', dist <= dist' -> score dist' <= score dist) /\
   score 0 == 1 /\
   score max_dist == epsilon / (max_dist + epsilon) /\
   0 < score max_dist /\
   (max_dist == 0 -> score max_dist == 1) /\
   (forall t, score max_dist <= t <-> epsilon * (1 - t) <= t * max_dist) /\
   (forall dist t,
       1 - t <= score dist <-> dist <= t * (max_dist + epsilon)) /\
   (forall d,
       Forall (fun x => x == d) distances ->
       forall dist, In dist distances ->
                    score dist == epsilon / (d + epsilon))).
Proof.
  intros vector_results distances max_dist score Hnd Hdiv.
  split; [now apply vector_scores_ok|].
  split; [reflexivity|].
  split; [apply max_distance_ge|].
  split; [apply max_distance_in|].
  split.
  - intros j doc_id dist Hi Hd. unfold dense_norm.
    apply dense_map_in.
    + now apply map_fst_combine_NoDup.
    + now apply (In_combine_nth _ _ j).
  - intros Hnn. pose proof (nonneg_divisor _ Hnn) as Hpos.
    fold distances max_dist in Hpos.
    split; [exact Hpos|].
    assert (Hinv : 0 < / (max_dist + epsilon)) by now apply Qinv_lt_0_compat.
    assert (Hfar : score max_dist == epsilon / (max_dist + epsilon)).
    { unfold score. field. exact Hdiv. }
    assert (Hfar_pos : 0 < epsilon / (max_dist + epsilon)).
    { apply Qlt_shift_div_l; [exact Hpos|]. pose proof epsilon_pos. lra. }
    split; [|split; [|split; [|split; [|split; [|split; [|split; [|split]]]]]]].
    + intros dist Hin. unfold score.
      assert (H0 : 0 <= dist).
      { rewrite Forall_forall in Hnn. now apply Hnn, list_elem_of_In. }
      assert (H1 : dist <= max_dist).
      { pose proof (max_distance_ge distances) as Hm.
        rewrite Forall_forall in Hm. now apply Hm, list_elem_of_In. }
      assert (H2 : 0 <= dist / (max_dist + epsilon)).
      { apply Qle_shift_div_l; [exact Hpos|]. lra. }
      assert (H3 : dist / (max_dist + epsilon) <= 1).
      { apply Qle_shift_div_r; [exact Hpos|]. pose proof epsilon_pos. lra. }
      lra.
    + intros dist dist' Hle. unfold score.
      assert (dist / (max_dist + epsilon) <= dist' / (max_dist + epsilon)).
      { unfold Qdiv. apply Qmult_le_compat_r; [exact Hle|].
        now apply Qlt_le_weak. }
      lra.
    + unfold score. field. exact Hdiv.
    + exact Hfar.
    + rewrite Hfar. exact Hfar_pos.
    + intros H0. rewrite Hfar. rewrite H0. field.
      pose proof epsilon_pos. lra.
    + intros t. rewrite Hfar.
      rewrite (Qdiv_le_iff epsilon t (max_dist + epsilon) Hpos).
      split; intros H; lra.
    + intros dist t. unfold score.
      pose proof (Qdiv_le_iff dist t (max_dist + epsilon) Hpos) as Hiff.
      split; intros H.
      * apply Hiff. lra.
      * apply Hiff in H. lra.
    + intros d Hall dist Hin.
      assert (Hne : distances <> []) by (intros E; rewrite E in Hin; destruct Hin).
      pose proof (max_distance_all distances d Hne Hall) as Hmax.
      fold max_dist in Hmax.
      assert (Hd : dist == d).
      { rewrite List.Forall_forall in Hall. now apply Hall. }
      unfold score. rewrite Hd, Hmax. field.
      rewrite <- Hmax. exact Hdiv.
Qed.

Lemma C4_dense_score_witness :
  dense_norm Sample.corpus3 [1; 0] !! "c"%string
  = Some (1 - (1 # 2) / (2 + epsilon)).
Proof.
  destruct (C4_dense_score Sample.corpus3 [1; 0]) as (_ & _ & _ & _ & H & _).
  - repeat constructor; simpl; intuition discriminate.
  - discriminate.
  - apply (H 1%nat); reflexivity.
Defined.

(** C4, as the claim states it, fails: non-negative distances do not make
    the closest document score near 1 and the farthest near 0.  Whatever
    [lo < hi] separate "near 0" (at most [lo]) from "near 1" (at least
    [hi]), three documents that are all at distance 5 are each the closest
    and the farthest, and each scores 1/50001; and when all three are at
    distance 0, the farthest scores 1. *)
Lemma C4_counterexample :
  (forall lo hi : Q,
      lo < hi ->
      ~ (forall (c : collection) (e : list Q),
            let vector_results := query c e (length (documents (get c))) in
            let distances := distances0 vector_results in
            List.NoDup (ids0 vector_results) ->
            Forall (fun d => 0 <= d) distances ->
            forall j doc_id dist,
              nth_error (ids0 vector_results) j = Some doc_id ->
              nth_error distances j = Some dist ->
              exists s,
                dense_norm c e !! doc_id = Some s /\
                (Forall (fun d => dist <= d) distances -> hi <= s) /\
                (Forall (fun d => d <= dist) distances -> s <= lo))) /\
  (forall doc_id,
      In doc_id (ids0 (query Sample.equidistant3 [1; 0] 3)) ->
      exists s,
        dense_norm Sample.equidistant3 [1; 0] !! doc_id = Some s /\
        s == 1 # 50001) /\
  (forall doc_id,
      In doc_id (ids0 (query Sample.coincident3 [1; 0] 3)) ->
      exists s,
        dense_norm Sample.coincident3 [1; 0] !! doc_id = Some s /\
        s == 1).
Proof.
  split; [|split].
  - intros lo hi Hlt H.
    destruct (H Sample.equidistant3 [1; 0]) with (j := 0%nat)
      (doc_id := "a"%string) (dist := 5) as (s & _ & Hhi & Hlo).
    + repeat constructor; simpl; intuition discriminate.
    + repeat constructor; discriminate.
    + reflexivity.
    + reflexivity.
    + assert (H1 : hi <= s) by (apply Hhi; repeat constructor; discriminate).
      assert (H2 : s <= lo) by (apply Hlo; repeat constructor; discriminate).
      lra.
  - intros doc_id [<-|[<-|[<-|[]]]]; eexists; (split; [reflexivity|]);
      reflexivity.
  - intros doc_id [<-|[<-|[<-|[]]]]; eexists; (split; [reflexivity|]);
      reflexivity.
Qed.

(** ** Early returns and failures *)

Section Outcomes.

Variable bm25_get_scores : list (list string) -> list string -> exn + list Q.
Variable embed_content : string -> string + list Q.
Variable generate_content : string -> string -> string + string.

Lemma hybrid_search_empty (q : string) (c : collection) (k : Z) :
  documents (get c) = [] ->
  hybrid_search bm25_get_scores embed_content q c k
  = ([LineSearchStart; LineDbEmpty], inr []).
Proof.
  intros H. unfold hybrid_search, score_documents. now rewrite H.
Qed.

Lemma run_rag_nothing (c : collection) (q : string) (out : list line) :
  hybrid_search bm25_get_scores embed_content q c 7 = (out, inr []) ->
  run_rag bm25_get_scores embed_content generate_content true c q
  = (out, inr ReplyNotFound).
Proof.
  intros H. unfold run_rag. simpl negb. cbv iota. rewrite H.
  unfold bind, ret. now rewrite app_nil_r.
Qed.

Lemma hybrid_search_no_embedding (q : string) (c : collection)
    (raw : list Q) (k : Z) :
  documents (get c) <> [] ->
  bm25_get_scores (map simple_tokenize (documents (get c)))
                  (simple_tokenize q) = inr raw ->
  raw <> [] ->
  (embed_content q = inr [] \/ exists msg, embed_content q = inl msg) ->
  hybrid_search bm25_get_scores embed_content q c k
  = (LineSearchStart ::
       match embed_content q with
       | inl msg => [LineEmbeddingError msg]
       | inr _ => []
       end,
     inr []).
Proof.
  intros Hdocs Hbm Hr Hemb. unfold hybrid_search, score_documents.
  destruct (documents (get c)) as [|d ds] eqn:Ed; [congruence|].
  rewrite <- Ed in *. rewrite Hbm.
  change (([] : list line), (inr raw : exn + list Q)) with (ret raw).
  rewrite bind_ret_l, (normalize_sparse_norm raw Hr), bind_ret_l.
  unfold get_query_embedding.
  destruct Hemb as [He|[msg He]]; rewrite He; reflexivity.
Qed.

(** C5 (as the code has it). On a non-empty corpus, when the embedding
    call raises or returns an empty embedding, the search returns the
    empty list.  The cause is only printed, and only when the call raised;
    the returned value is the one an empty corpus gives, and [run_rag]
    answers with the message "could not find related documents" in both
    cases. *)
Theorem C5_embedding_unavailable (q : string) (c : collection)
    (raw : list Q) (k : Z) :
  documents (get c) <> [] ->
  bm25_get_scores (map simple_tokenize (documents (get c)))
                  (simple_tokenize q) = inr raw ->
  raw <> [] ->
  (embed_content q = inr [] \/ exists msg, embed_content q = inl msg) ->
  returned (hybrid_search bm25_get_scores embed_content q c k) = Some [] /\
  printed (hybrid_search bm25_get_scores embed_content q c k)
  = LineSearchStart ::
      match embed_content q with
      | inl msg => [LineEmbeddingError msg]
      | inr _ => []
      end /\
  returned (run_rag bm25_get_scores embed_content generate_content true c q)
  = Some ReplyNotFound /\
  (forall q' c' k',
      documents (get c') = [] ->
      returned (hybrid_search bm25_get_scores embed_content q' c' k')
      = returned (hybrid_search bm25_get_scores embed_content q c k) /\
      returned
        (run_rag bm25_get_scores embed_content generate_content true c' q')
      = returned
          (run_rag bm25_get_scores embed_content generate_content true c q)).
Proof.
  intros Hdocs Hbm Hr Hemb.
  pose proof (hybrid_search_no_embedding q c raw k Hdocs Hbm Hr Hemb) as Hk.
  pose proof (hybrid_search_no_embedding q c raw 7 Hdocs Hbm Hr Hemb) as H7.
  apply run_rag_nothing in H7.
  rewrite Hk. split; [reflexivity|]. split; [reflexivity|].
  rewrite H7. split; [reflexivity|].
  intros q' c' k' He.
  rewrite (hybrid_search_empty q' c' k' He).
  rewrite (run_rag_nothing c' q' _ (hybrid_search_empty q' c' 7 He)).
  now split.
Qed.

(** C7. When the collection holds no document, the search prints that the
    database is empty and returns the empty list, for every query and
    every [k], without consulting BM25 or the embedding call; [run_rag]
    then returns its ordinary "could not find related documents" message
    and raises nothing. *)
Theorem C7_empty_corpus (q : string) (c : collection) (k : Z) :
  documents (get c) = [] ->
  hybrid_search bm25_get_scores embed_content q c k
  = ([LineSearchStart; LineDbEmpty], inr []) /\
  raised (hybrid_search bm25_get_scores embed_content q c k) = None /\
  run_rag bm25_get_scores embed_content generate_content true c q
  = ([LineSearchStart; LineDbEmpty], inr ReplyNotFound).
Proof.
  intros H. rewrite (hybrid_search_empty q c k H).
  split; [reflexivity|]. split; [reflexivity|].
  apply run_rag_nothing. now apply hybrid_search_empty.
Qed.

(** C9. On a non-empty collection for which the BM25 scores and a
    non-empty embedding are obtained, a query that is empty or all
    whitespace makes the search raise [IndexError]: [query.split()] is
    empty and the boost check of the first document indexes it. *)
Theorem C9_blank_query (q : string) (c : collection) (raw e : list Q)
    (k : Z) :
  blank q = true ->
  documents (get c) <> [] ->
  length (ids (get c)) = length (documents (get c)) ->
  bm25_get_scores (map simple_tokenize (documents (get c)))
                  (simple_tokenize q) = inr raw ->
  length raw = length (documents (get c)) ->
  embed_content q = inr e ->
  e <> [] ->
  ~ max_distance
      (distances0 (query c e (length (documents (get c))))) + epsilon == 0 ->
  PyStr.split q = [] /\
  hybrid_search bm25_get_scores embed_content q c k
  = ([LineSearchStart], inl IndexError) /\
  raised (hybrid_search bm25_get_scores embed_content q c k)
  = Some IndexError.
Proof.
  intros Hb Hdocs Hids Hbm Hraw Hemb Hne Hdist.
  apply split_blank in Hb. split; [exact Hb|].
  assert (Hs : hybrid_search bm25_get_scores embed_content q c k
               = ([LineSearchStart], inl IndexError)).
  { unfold hybrid_search, score_documents.
    destruct (documents (get c)) as [|d ds] eqn:Ed; [congruence|].
    rewrite <- Ed in *. rewrite Hbm.
    change (([] : list line), (inr raw : exn + list Q)) with (ret raw).
    rewrite bind_ret_l.
    assert (Hr : raw <> []).
    { intros ->. rewrite Ed in Hraw. discriminate. }
    rewrite (normalize_sparse_norm raw Hr), bind_ret_l.
    unfold get_query_embedding. rewrite Hemb, bind_ret_l.
    destruct e as [|x e']; [congruence|].
    rewrite vector_scores_ok by exact Hdist. rewrite bind_ret_l.
    destruct (ids (get c)) as [|doc_id rest] eqn:Ei.
    { rewrite Ed in Hids. discriminate. }
    destruct (sparse_norm raw) as [|s sn] eqn:Esn.
    { apply (f_equal (@length Q)) in Esn.
      rewrite sparse_norm_length, Hraw, Ed in Esn. discriminate. }
    rewrite (fuse_blank q _ (s :: sn) _ doc_id rest s Hb eq_refl).
    reflexivity. }
  rewrite Hs. now split.
Qed.

End Outcomes.

Lemma C5_embedding_unavailable_witness :
  returned (hybrid_search Sample.term_overlap Sample.embed_down
              "stats Oh" Sample.corpus3 7) = Some [].
Proof.
  destruct (C5_embedding_unavailable Sample.term_overlap Sample.embed_down
              Sample.generate "stats Oh" Sample.corpus3 Sample.raw3 7)
    as [H _].
  - discriminate.
  - reflexivity.
  - discriminate.
  - right. now exists "unavailable"%string.
  - exact H.
Defined.

(** C5, as the claim states it, fails: with the embedding call down on the
    sample collection, [hybrid_search] and [run_rag] hand back exactly
    what they hand back for an empty collection with a working embedding
    call, the "nothing found" outcome. *)
Lemma C5_counterexample :
  returned (hybrid_search Sample.term_overlap Sample.embed_down
              "stats Oh" Sample.corpus3 7)
  = returned (hybrid_search Sample.term_overlap Sample.embed_ok
                "stats Oh" Sample.empty_corpus 7) /\
  returned (run_rag Sample.term_overlap Sample.embed_down Sample.generate
              true Sample.corpus3 "stats Oh")
  = Some ReplyNotFound /\
  returned (run_rag Sample.term_overlap Sample.embed_ok Sample.generate
              true Sample.empty_corpus "stats Oh")
  = Some ReplyNotFound.
Proof. repeat split. Qed.

Lemma C7_empty_corpus_witness :
  hybrid_search Sample.term_overlap Sample.embed_ok "stats Oh"
    Sample.empty_corpus 7
  = ([LineSearchStart; LineDbEmpty], inr []).
Proof.
  destruct (C7_empty_corpus Sample.term_overlap Sample.embed_ok
              Sample.generate "stats Oh" Sample.empty_corpus 7) as [H _].
  - reflexivity.
  - exact H.
Defined.

Lemma C9_blank_query_witness :
  raised (hybrid_search Sample.term_overlap Sample.embed_ok "  "
            Sample.corpus3 7) = Some IndexError.
Proof.
  destruct (C9_blank_query Sample.term_overlap Sample.embed_ok "  "
              Sample.corpus3 [0; 0; 0] [1; 0] 7) as (_ & _ & H).
  - reflexivity.
  - discriminate.
  - reflexivity.
  - reflexivity.
  - reflexivity.
  - reflexivity.
  - discriminate.
  - discriminate.
  - exact H.
Defined.

(** ** Normalisation and monotonicity *)

Lemma np_max_spec (raw : list Q) (m : Q) :
  np_max raw = ret m -> Forall (fun s => s <= m) raw /\ In m raw.
Proof.
  destruct raw as [|x l]; [discriminate|].
  unfold np_max, ret. intros H. injection H as <-.
  destruct (max_from_ge l x) as [H1 H2].
  split; [now constructor|].
  destruct (max_from_in l x) as [H|H]; [left; now rewrite H|now right].
Qed.

(** C6 (as the code has it). The BM25 vector is divided by its maximum
    when the maximum is positive and is left as it is otherwise, for a
    zero maximum and for a negative one alike; a vector of zeros stays a
    vector of zeros, and the normalisation raises nothing. *)
Theorem C6_normalize (raw : list Q) (m : Q) :
  np_max raw = ret m ->
  Forall (fun s => s <= m) raw /\ In m raw /\
  (0 < m -> normalize raw = ret (map (fun s => s / m) raw)) /\
  (m <= 0 -> normalize raw = ret raw) /\
  (Forall (fun s => s == 0) raw ->
   normalize raw = ret raw /\
   exists sn, normalize raw = ret sn /\ Forall (fun s => s == 0) sn) /\
  raised (normalize raw) = None.
Proof.
  intros Hm. destruct (np_max_spec raw m Hm) as [Hle Hin].
  split; [exact Hle|]. split; [exact Hin|].
  unfold normalize. rewrite Hm, bind_ret_l.
  assert (Hpos : 0 < m -> Qltb 0 m = true) by apply Qltb_lt.
  assert (Hneg : m <= 0 -> Qltb 0 m = false) by apply Qltb_ge.
  split; [intros H; now rewrite (Hpos H)|].
  split; [intros H; now rewrite (Hneg H)|].
  split.
  - intros Hz.
    assert (Hm0 : m <= 0).
    { rewrite Forall_forall in Hz. apply list_elem_of_In in Hin.
      apply Hz in Hin. rewrite Hin. apply Qle_refl. }
    rewrite (Hneg Hm0). split; [reflexivity|]. now exists raw.
  - now destruct (Qltb 0 m).
Qed.

Lemma C6_normalize_witness :
  normalize [0; 0; 0] = ret [0; 0; 0].
Proof.
  destruct (C6_normalize [0; 0; 0] 0) as (_ & _ & _ & H & _).
  - reflexivity.
  - apply H. discriminate.
Defined.

(** C6, as the claim states it, fails: the division is skipped whenever
    the maximum is not positive, not only when it is zero.  For the
    one-document vector [-1] the maximum is -1, not zero, and the vector
    is left as it is instead of becoming [1]. *)
Lemma C6_counterexample :
  ~ (forall raw m,
        np_max raw = ret m -> ~ m == 0 ->
        exists sn, normalize raw = ret sn /\
                   Forall2 Qeq sn (map (fun s => s / m) raw)).
Proof.
  intros H. destruct (H [-1 # 1] (-1 # 1)) as (sn & Hn & Hd).
  - reflexivity.
  - discriminate.
  - injection Hn as <-. inversion Hd as [|? ? ? ? Heq _]; subst.
    discriminate Heq.
Qed.

(** C8. For a weight between 0 and 1, the score of a document, with or
    without the boost, does not decrease when its sparse score grows and
    the dense score is kept, nor when its dense score grows and the
    sparse score is kept. *)
Theorem C8_monotone (a : Q) (tok doc : string) :
  0 <= a <= 1 ->
  (forall s s' d, s <= s' -> weighted_sum a s d <= weighted_sum a s' d) /\
  (forall s d d', d <= d' -> weighted_sum a s d <= weighted_sum a s d') /\
  (forall s s' d,
      s <= s' ->
      boost tok doc (weighted_sum a s d)
      <= boost tok doc (weighted_sum a s' d)) /\
  (forall s d d',
      d <= d' ->
      boost tok doc (weighted_sum a s d)
      <= boost tok doc (weighted_sum a s d')).
Proof.
  intros [Ha0 Ha1].
  assert (Hs : forall s s' d,
             s <= s' -> weighted_sum a s d <= weighted_sum a s' d).
  { intros s s' d H. unfold weighted_sum.
    assert (s * a <= s' * a) by now apply Qmult_le_compat_r.
    lra. }
  assert (Hd : forall s d d',
             d <= d' -> weighted_sum a s d <= weighted_sum a s d').
  { intros s d d' H. unfold weighted_sum.
    assert (d * (1 - a) <= d' * (1 - a)) by (apply Qmult_le_compat_r; lra).
    lra. }
  split; [exact Hs|]. split; [exact Hd|].
  split.
  - intros s s' d H. specialize (Hs s s' d H). unfold boost.
    destruct (PyStr.contains tok doc); lra.
  - intros s d d' H. specialize (Hd s d d' H). unfold boost.
    destruct (PyStr.contains tok doc); lra.
Qed.

(** The weight of the code, 0.6, on the boosted sample document. *)
Lemma C8_monotone_witness :
  boost "stats" "stats lab Oh" (weighted_sum alpha (1 # 2) (3 # 4))
  <= boost "stats" "stats lab Oh" (weighted_sum alpha 1 (3 # 4)).
Proof.
  destruct (C8_monotone alpha "stats" "stats lab Oh") as (_ & _ & H & _).
  - split; discriminate.
  - apply H. discriminate.
Defined.

(** ** Letter case *)

Lemma simple_tokenize_lower (text : string) :
  simple_tokenize (PyStr.lower text) = simple_tokenize text.
Proof. unfold simple_tokenize. now rewrite lower_idem. Qed.

Lemma isspace_lower_char (c : ascii) :
  PyStr.isspace (PyStr.lower_char c) = PyStr.isspace c.
Proof. destruct c as [[] [] [] [] [] [] [] []]; reflexivity. Qed.

Lemma lower_rev_append (acc : string) : forall s,
  PyStr.lower (PyStr.rev_append acc s)
  = PyStr.rev_append (PyStr.lower acc) (PyStr.lower s).
Proof.
  induction acc as [|c acc IH]; intros s; simpl; [reflexivity|].
  now rewrite IH.
Qed.

Lemma split_aux_lower (s : string) : forall cur,
  PyStr.split_aux (PyStr.lower cur) (PyStr.lower s)
  = map PyStr.lower (PyStr.split_aux cur s).
Proof.
  induction s as [|a s IH]; intros cur; simpl.
  - destruct cur as [|c cur]; simpl; [reflexivity|].
    now rewrite lower_rev_append.
  - rewrite isspace_lower_char. destruct (PyStr.isspace a).
    + destruct cur as [|c cur]; simpl.
      * exact (IH EmptyString).
      * rewrite lower_rev_append. f_equal. exact (IH EmptyString).
    + exact (IH (String a cur)).
Qed.

(** The tokens of a text are its whitespace-separated words, each in
    lower case. *)
Lemma simple_tokenize_words (text : string) :
  simple_tokenize text = map PyStr.lower (PyStr.split text).
Proof. exact (split_aux_lower text EmptyString). Qed.

(** C10. Tokenisation for BM25 lowercases: the tokens of a text are its
    whitespace-separated words in lower case, so a text and its lowercased
    form give the same tokens; the boost tests the first word of the raw
    query against the raw document.  For the query "Stats", whose first
    word is not in lower case and whose only token is that word
    lowercased, the documents "Stats lab" and "stats lab" differ in letter
    case only and have the same tokens, among them the token of the query.
    Any BM25 scorer therefore gives them the same raw score, every run
    that reaches the ranking gives them the same normalised sparse score
    and the same dense score, and only "Stats lab" receives the bonus; in
    the sample run the sparse score of both is the full 1. *)
Theorem C10_case_sensitive_boost :
  (forall text, simple_tokenize text = map PyStr.lower (PyStr.split text)) /\
  (forall text, simple_tokenize (PyStr.lower text) = simple_tokenize text) /\
  exists q tok doc doc' : string,
    PyStr.split q = [tok] /\
    PyStr.lower tok <> tok /\
    simple_tokenize q = [PyStr.lower tok] /\
    doc <> doc' /\
    PyStr.lower doc = PyStr.lower doc' /\
    simple_tokenize doc = simple_tokenize doc' /\
    In (PyStr.lower tok) (simple_tokenize doc') /\
    (forall t, In t (simple_tokenize q) -> In t (simple_tokenize doc')) /\
    PyStr.contains tok doc = true /\
    PyStr.contains tok doc' = false /\
    PyStr.contains (PyStr.lower tok) doc' = true /\
    (forall bm25_get_scores embed_content query_fn raw e,
        ranks bm25_get_scores embed_content q (single doc query_fn) raw e tok ->
        ranks bm25_get_scores embed_content q (single doc' query_fn) raw e tok /\
        exists s d,
          sparse_norm raw = [s] /\
          dense_norm (single doc query_fn) e !! "a"%string
          = dense_norm (single doc' query_fn) e !! "a"%string /\
          d = default 0 (dense_norm (single doc' query_fn) e !! "a"%string) /\
          score_documents bm25_get_scores embed_content q
            (single doc query_fn)
          = ret (Some [(weighted_sum alpha s d + bonus, doc)]) /\
          score_documents bm25_get_scores embed_content q
            (single doc' query_fn)
          = ret (Some [(weighted_sum alpha s d, doc')])) /\
    exists bm25_get_scores embed_content query_fn e,
      ranks bm25_get_scores embed_content q (single doc query_fn) [1] e tok /\
      sparse_norm [1] = [1].
Proof.
  split; [exact simple_tokenize_words|].
  split; [exact simple_tokenize_lower|].
  exists "Stats"%string, "Stats"%string, "Stats lab"%string,
         "stats lab"%string.
  split; [reflexivity|]. split; [discriminate|].
  split; [reflexivity|]. split; [discriminate|].
  split; [reflexivity|]. split; [reflexivity|].
  split; [now left|].
  split.
  { intros t [<-|[]]. now left. }
  split; [reflexivity|]. split; [reflexivity|]. split; [reflexivity|].
  split.
  - intros bm emb qf raw e H.
    assert (H' : ranks bm emb "Stats" (single "stats lab" qf) raw e "Stats").
    { destruct H as [Hdocs Hids Hbm Hraw Hemb Hne Htok Hdist].
      constructor; try assumption. discriminate. }
    split; [exact H'|].
    rewrite (score_documents_ok bm emb _ _ _ _ _ H).
    rewrite (score_documents_ok bm emb _ _ _ _ _ H').
    pose proof (ranks_raw _ _ _ _ _ _ _ H) as Hraw.
    destruct raw as [|r [|r' raw']]; try discriminate Hraw.
    assert (Hs : exists s, sparse_norm [r] = [s]).
    { unfold sparse_norm. simpl. destruct (Qltb 0 r); eauto. }
    destruct Hs as [s Hs].
    exists s, (default 0 (dense_norm (single "stats lab" qf) e
                          !! "a"%string)).
    split; [exact Hs|]. split; [reflexivity|]. split; [reflexivity|].
    unfold fused. rewrite Hs. split; reflexivity.
  - exists Sample.term_overlap, Sample.embed_ok,
           (fun _ _ => {| ids0 := ["a"%string]; distances0 := [1 # 2] |}),
           [1; 0].
    split; [|reflexivity].
    constructor; try reflexivity; try discriminate.
    now exists [].
Qed.

(** * Further properties of the search *)

(** ** The tokenizer *)

Lemma blank_lower (s : string) : blank (PyStr.lower s) = blank s.
Proof.
  induction s as [|c s IH]; simpl; [reflexivity|].
  now rewrite isspace_lower_char, IH.
Qed.

(** The characters of a string. *)
Lemma chars_rev_append (acc s : string) :
  list_ascii_of_string (PyStr.rev_append acc s)
  = List.rev (list_ascii_of_string acc) ++ list_ascii_of_string s.
Proof.
  revert s. induction acc as [|c acc IH]; intros s; simpl; [reflexivity|].
  rewrite IH. simpl. now rewrite <- app_assoc.
Qed.

Lemma rev_append_nonempty (c : ascii) (acc s : string) :
  PyStr.rev_append (String c acc) s <> EmptyString.
Proof.
  intros H. apply (f_equal list_ascii_of_string) in H.
  rewrite chars_rev_append in H. simpl in H.
  destruct (List.rev (list_ascii_of_string acc)); discriminate.
Qed.

Lemma split_aux_tokens (s : string) : forall cur tok,
  Forall (fun c => PyStr.isspace c = false) (list_ascii_of_string cur) ->
  In tok (PyStr.split_aux cur s) ->
  tok <> EmptyString /\
  Forall (fun c => PyStr.isspace c = false /\
                   (In c (list_ascii_of_string cur)
                    \/ In c (list_ascii_of_string s)))
         (list_ascii_of_string tok).
Proof.
  assert (Hemit : forall c cur s',
    Forall (fun c => PyStr.isspace c = false)
           (list_ascii_of_string (String c cur)) ->
    PyStr.rev_append (String c cur) EmptyString <> EmptyString /\
    Forall (fun a => PyStr.isspace a = false /\
                     (In a (list_ascii_of_string (String c cur))
                      \/ In a (list_ascii_of_string s')))
           (list_ascii_of_string
              (PyStr.rev_append (String c cur) EmptyString))).
  { intros c cur s' Hc. split; [apply rev_append_nonempty|].
    rewrite chars_rev_append, app_nil_r.
    apply Forall_forall. intros a Ha.
    apply list_elem_of_In, in_rev in Ha.
    rewrite Forall_forall in Hc. split; [|now left].
    now apply Hc, list_elem_of_In. }
  induction s as [|a s IH]; intros cur tok Hcur Hin; simpl in Hin.
  - destruct cur as [|c cur]; [destruct Hin|].
    destruct Hin as [<-|[]]. now apply Hemit.
  - destruct (PyStr.isspace a) eqn:Ea.
    + destruct cur as [|c cur].
      * destruct (IH EmptyString tok (List.Forall_nil _) Hin) as [H1 H2].
        split; [exact H1|].
        eapply List.Forall_impl; [|exact H2].
        simpl. intros x [Hx [[]|Hx']]. split; [exact Hx|]. right. now right.
      * destruct Hin as [<-|Hin]; [now apply Hemit|].
        destruct (IH EmptyString tok (List.Forall_nil _) Hin) as [H1 H2].
        split; [exact H1|].
        eapply List.Forall_impl; [|exact H2].
        simpl. intros x [Hx [[]|Hx']]. split; [exact Hx|]. right. now right.
    + assert (Hc : Forall (fun c => PyStr.isspace c = false)
                     (list_ascii_of_string (String a cur)))
        by (simpl; now constructor).
      destruct (IH (String a cur) tok Hc Hin) as [H1 H2].
      split; [exact H1|].
      eapply List.Forall_impl; [|exact H2].
      simpl. intros x [Hx [[Hx'|Hx']|Hx']]; (split; [exact Hx|]).
      * right. now left.
      * now left.
      * right. now right.
Qed.

Lemma chars_lower (s : string) :
  list_ascii_of_string (PyStr.lower s)
  = map PyStr.lower_char (list_ascii_of_string s).
Proof. induction s as [|c s IH]; simpl; [reflexivity|]. now rewrite IH. Qed.

Lemma lower_fixed (s : string) :
  Forall (fun c => PyStr.lower_char c = c) (list_ascii_of_string s) ->
  PyStr.lower s = s.
Proof.
  induction s as [|c s IH]; simpl; intros H; [reflexivity|].
  inversion H; subst. now rewrite IH, H2.
Qed.

(** X1. Every token of [simple_tokenize] is non-empty, contains no
    whitespace character, and is already lowercase. *)
Theorem tokens_wellformed (text tok : string) :
  In tok (simple_tokenize text) ->
  tok <> EmptyString /\
  Forall (fun c => PyStr.isspace c = false) (list_ascii_of_string tok) /\
  PyStr.lower tok = tok.
Proof.
  unfold simple_tokenize, PyStr.split. intros Hin.
  destruct (split_aux_tokens _ EmptyString tok (List.Forall_nil _) Hin)
    as [Hne Hall].
  split; [exact Hne|]. split.
  - eapply List.Forall_impl; [|exact Hall]. now intros c [Hc _].
  - apply lower_fixed. eapply List.Forall_impl; [|exact Hall].
    simpl. intros c [_ [[]|Hc]].
    rewrite chars_lower in Hc. apply in_map_iff in Hc as [c' [<- _]].
    apply lower_char_idem.
Qed.

Lemma tokens_wellformed_witness :
  PyStr.lower "stats" = "stats"%string.
Proof.
  apply (tokens_wellformed "Stats  LAB" "stats"). now left.
Defined.

(** X2. [simple_tokenize] returns no token exactly for the texts that are
    empty or consist of whitespace only. *)
Theorem tokenize_blank (text : string) :
  simple_tokenize text = [] <-> blank text = true.
Proof.
  unfold simple_tokenize. rewrite <- split_blank. now rewrite blank_lower.
Qed.

Lemma append_cons (c : ascii) (s t : string) :
  String.append (String c s) t = String c (String.append s t).
Proof. reflexivity. Qed.

Lemma rev_append_rev_append (t acc s : string) :
  PyStr.rev_append (PyStr.rev_append t acc) s
  = PyStr.rev_append acc (String.append t s).
Proof.
  revert acc. induction t as [|c t IH]; intros acc; [reflexivity|].
  rewrite append_cons. simpl. now rewrite IH.
Qed.

Lemma split_aux_word (t : string) : forall cur s,
  Forall (fun c => PyStr.isspace c = false) (list_ascii_of_string t) ->
  PyStr.split_aux cur (String.append t s)
  = PyStr.split_aux (PyStr.rev_append t cur) s.
Proof.
  induction t as [|c t IH]; intros cur s H; [reflexivity|].
  simpl in H. inversion H as [|? ? Hc Ht]; subst.
  rewrite append_cons. simpl. rewrite Hc. now apply IH.
Qed.

Lemma append_empty_r (s : string) : String.append s EmptyString = s.
Proof.
  induction s as [|c s IH]; [reflexivity|]. now rewrite append_cons, IH.
Qed.

Lemma rev_append_word (t : string) :
  t <> EmptyString ->
  exists c cur, PyStr.rev_append t EmptyString = String c cur.
Proof.
  destruct t as [|a t]; [congruence|]. intros _.
  destruct (PyStr.rev_append (String a t) EmptyString) as [|c cur] eqn:E.
  - now apply rev_append_nonempty in E.
  - eauto.
Qed.

Lemma split_join (toks : list string) :
  Forall word toks ->
  PyStr.split (String.concat (String " " EmptyString) toks) = toks.
Proof.
  unfold PyStr.split. induction toks as [|t toks IH]; intros H.
  - reflexivity.
  - inversion H as [|? ? [Hne Hsp] Hrest]; subst.
    destruct (rev_append_word t Hne) as (c & cur & Hc).
    assert (Ht : PyStr.rev_append (String c cur) EmptyString = t).
    { rewrite <- Hc, rev_append_rev_append. apply append_empty_r. }
    destruct toks as [|t' toks].
    + simpl. rewrite <- (append_empty_r t) at 1.
      rewrite split_aux_word by exact Hsp. rewrite Hc.
      change (PyStr.split_aux (String c cur) EmptyString)
        with [PyStr.rev_append (String c cur) EmptyString].
      now rewrite Ht.
    + change (String.concat (String " " EmptyString) (t :: t' :: toks))
        with (String.append t
                (String " " (String.concat (String " " EmptyString)
                                           (t' :: toks)))).
      rewrite split_aux_word by exact Hsp. rewrite Hc.
      change (PyStr.split_aux (String c cur) (String " " ?s))
        with (PyStr.rev_append (String c cur) EmptyString
              :: PyStr.split_aux EmptyString s).
      rewrite Ht. f_equal. now apply IH.
Qed.

Lemma lower_append (a b : string) :
  PyStr.lower (String.append a b)
  = String.append (PyStr.lower a) (PyStr.lower b).
Proof.
  induction a as [|c a IH]; [reflexivity|].
  rewrite append_cons. simpl. now rewrite IH.
Qed.

Lemma lower_join (toks : list string) :
  Forall (fun t => PyStr.lower t = t) toks ->
  PyStr.lower (String.concat (String " " EmptyString) toks)
  = String.concat (String " " EmptyString) toks.
Proof.
  induction toks as [|t toks IH]; intros H; [reflexivity|].
  inversion H as [|? ? Ht Hrest]; subst.
  destruct toks as [|t' toks]; [exact Ht|].
  change (String.concat (String " " EmptyString) (t :: t' :: toks))
    with (String.append t
            (String " " (String.concat (String " " EmptyString)
                                       (t' :: toks)))).
  rewrite lower_append, Ht.
  change (PyStr.lower (String " " ?s)) with (String " " (PyStr.lower s)).
  now rewrite (IH Hrest).
Qed.

Lemma tokens_words (text : string) :
  Forall (fun tok => word tok /\ PyStr.lower tok = tok)
         (simple_tokenize text).
Proof.
  apply List.Forall_forall. intros tok Hin.
  unfold simple_tokenize, PyStr.split in Hin.
  destruct (split_aux_tokens _ EmptyString tok (List.Forall_nil _) Hin)
    as [Hne Hall].
  split; [split; [exact Hne|]|].
  - eapply List.Forall_impl; [|exact Hall]. now intros c [Hc _].
  - apply lower_fixed. eapply List.Forall_impl; [|exact Hall].
    simpl. intros c [_ [[]|Hc]].
    rewrite chars_lower in Hc. apply in_map_iff in Hc as [c' [<- _]].
    apply lower_char_idem.
Qed.

(** X3. Joining the tokens of a text with single spaces and tokenizing
    again gives the same tokens: [simple_tokenize] is a normal form, and
    [split] undoes [" ".join]. *)
Theorem tokenize_join_tokenize (text : string) :
  simple_tokenize
    (String.concat (String " " EmptyString) (simple_tokenize text))
  = simple_tokenize text.
Proof.
  pose proof (tokens_words text) as H.
  unfold simple_tokenize at 1. rewrite lower_join.
  - apply split_join. eapply List.Forall_impl; [|exact H].
    now intros t [H1 _].
  - eapply List.Forall_impl; [|exact H]. now intros t [_ H2].
Qed.

(** ** Substrings and the boost *)

Lemma prefix_spec (a : string) : forall b,
  String.prefix a b = true <-> exists post, b = String.append a post.
Proof.
  induction a as [|x a IH]; intros [|y b]; simpl.
  - split; [intros _; now exists EmptyString|reflexivity].
  - split; [intros _; now exists (String y b)|reflexivity].
  - split; [discriminate|]. intros [post H]. discriminate.
  - destruct (ascii_dec x y) as [->|Hne].
    + rewrite IH. split; intros [post H]; exists post.
      * now rewrite append_cons, H.
      * rewrite append_cons in H. now injection H.
    + split; [discriminate|]. intros [post H].
      rewrite append_cons in H. injection H as H _. congruence.
Qed.

Lemma contains_spec (sub : string) : forall s,
  PyStr.contains sub s = true
  <-> exists pre post, s = String.append pre (String.append sub post).
Proof.
  induction s as [|c s IH].
  - change (PyStr.contains sub EmptyString)
      with (String.prefix sub EmptyString || false).
    rewrite orb_false_r, prefix_spec. split.
    + intros [post H]. now exists EmptyString, post.
    + intros (pre & post & H). destruct pre as [|x pre].
      * now exists post.
      * discriminate.
  - change (PyStr.contains sub (String c s))
      with (String.prefix sub (String c s) || PyStr.contains sub s).
    rewrite orb_true_iff, prefix_spec, IH. split.
    + intros [[post H]|(pre & post & H)].
      * now exists EmptyString, post.
      * exists (String c pre), post. now rewrite append_cons, H.
    + intros (pre & post & H). destruct pre as [|x pre].
      * left. now exists post.
      * right. rewrite append_cons in H. injection H as _ H.
        now exists pre, post.
Qed.

(** X4. The boost is a substring test: the bonus is added exactly for the
    documents that can be cut as [pre ++ tok ++ post], so a token inside a
    longer word counts too, and any other document keeps its score. *)
Theorem boost_substring (tok doc : string) (total : Q) :
  ((exists pre post, doc = String.append pre (String.append tok post)) ->
   boost tok doc total = total + bonus) /\
  (~ (exists pre post, doc = String.append pre (String.append tok post)) ->
   boost tok doc total = total).
Proof.
  unfold boost. split; intros H.
  - apply contains_spec in H. now rewrite H.
  - destruct (PyStr.contains tok doc) eqn:E; [|reflexivity].
    apply contains_spec in E. contradiction.
Qed.

(** ** Size and order of the result *)

Lemma In_skipn_In {A} (l : list A) : forall j x, In x (skipn j l) -> In x l.
Proof.
  induction l as [|a l IH]; intros [|j] x H; simpl in *; auto.
  right. now apply (IH j).
Qed.

Lemma sorted_split (l : list (Q * string)) :
  StronglySorted desc l ->
  forall j p p', In p (firstn j l) -> In p' (skipn j l) -> fst p' <= fst p.
Proof.
  induction 1 as [|x l Hs IH Hx]; intros j p p' Hp Hp'.
  - destruct j; destruct Hp.
  - destruct j as [|j]; [destruct Hp|]. simpl in Hp, Hp'.
    destruct Hp as [<-|Hp].
    + rewrite Forall_forall in Hx. apply Hx, list_elem_of_In.
      now apply (In_skipn_In l j).
    + now apply (IH j).
Qed.

Section Results.

Variable bm25_get_scores : list (list string) -> list string -> exn + list Q.
Variable embed_content : string -> string + list Q.
Variable generate_content : string -> string -> string + string.

Lemma fused_length (c : collection) (raw e : list Q) (tok : string) :
  length (ids (get c)) = length (documents (get c)) ->
  length raw = length (documents (get c)) ->
  length (fused c raw e tok) = length (documents (get c)).
Proof.
  intros Hi Hr. rewrite <- (length_map snd). now rewrite fused_docs.
Qed.

(** X5. In a run that reaches the ranking with [n] documents, the search
    returns [min(k, n)] documents for [k >= 0] and [n - |k|] (none when
    that is negative) for a negative [k], which drops the last [|k|]
    documents of the ranking. *)
Theorem result_length (q : string) (c : collection) (raw e : list Q)
    (tok : string) (k : Z) :
  ranks bm25_get_scores embed_content q c raw e tok ->
  exists docs,
    hybrid_search bm25_get_scores embed_content q c k
    = ([LineSearchStart], inr docs) /\
    length docs
    = if (0 <=? k)%Z
      then Nat.min (Z.to_nat k) (length (documents (get c)))
      else (length (documents (get c)) - Z.to_nat (- k))%nat.
Proof.
  intros H. eexists.
  split; [exact (hybrid_search_ok _ _ _ _ _ _ _ k H)|].
  destruct H as [_ Hids _ Hraw _ _ _ _].
  rewrite length_map. unfold slice_to.
  destruct (0 <=? k)%Z; rewrite length_firstn, sort_desc_length,
    (fused_length c raw e tok Hids Hraw); lia.
Qed.

(** X6. In a run that reaches the ranking the returned documents are
    documents of the collection, each at most as often as the collection
    holds it, for every [k]: together with the documents cut off they
    make up the collection. *)
Theorem result_from_corpus (q : string) (c : collection) (raw e : list Q)
    (tok : string) (k : Z) :
  ranks bm25_get_scores embed_content q c raw e tok ->
  exists docs rest,
    hybrid_search bm25_get_scores embed_content q c k
    = ([LineSearchStart], inr docs) /\
    Permutation (docs ++ rest) (documents (get c)) /\
    (forall d, In d docs -> In d (documents (get c))).
Proof.
  intros H.
  assert (Hcut : exists j,
    slice_to (sort_desc (fused c raw e tok)) k
    = firstn j (sort_desc (fused c raw e tok))).
  { unfold slice_to. destruct (0 <=? k)%Z; eauto. }
  destruct Hcut as [j Hj].
  exists (map snd (firstn j (sort_desc (fused c raw e tok)))),
         (map snd (skipn j (sort_desc (fused c raw e tok)))).
  assert (Hp : Permutation
    (map snd (firstn j (sort_desc (fused c raw e tok)))
     ++ map snd (skipn j (sort_desc (fused c raw e tok))))
    (documents (get c))).
  { rewrite <- map_app, firstn_skipn.
    rewrite <- (fused_docs c raw e tok (ranks_ids _ _ _ _ _ _ _ H)
                  (ranks_raw _ _ _ _ _ _ _ H)).
    apply Permutation_map, sort_desc_perm. }
  split; [|split; [exact Hp|]].
  - rewrite (hybrid_search_ok _ _ _ _ _ _ _ k H). now rewrite Hj.
  - intros d Hd. apply (Permutation_in d Hp). apply in_or_app. now left.
Qed.

(** X7. In a run that reaches the ranking, asking for fewer documents
    gives a prefix of what asking for more gives: for [0 <= k <= k'] the
    result for [k] is the first [k] documents of the result for [k']. *)
Theorem result_prefix (q : string) (c : collection) (raw e : list Q)
    (tok : string) (k k' : Z) :
  ranks bm25_get_scores embed_content q c raw e tok ->
  (0 <= k <= k')%Z ->
  exists docs docs',
    hybrid_search bm25_get_scores embed_content q c k
    = ([LineSearchStart], inr docs) /\
    hybrid_search bm25_get_scores embed_content q c k'
    = ([LineSearchStart], inr docs') /\
    docs = firstn (Z.to_nat k) docs'.
Proof.
  intros H Hk. do 2 eexists.
  split; [exact (hybrid_search_ok _ _ _ _ _ _ _ k H)|].
  split; [exact (hybrid_search_ok _ _ _ _ _ _ _ k' H)|].
  rewrite !slice_to_nonneg by lia.
  rewrite <- firstn_map, <- firstn_map, firstn_firstn.
  f_equal. lia.
Qed.

(** X8. In a run that reaches the ranking, for [k >= 0] no document that
    is cut off has a higher score than a document that is returned. *)
Theorem result_best_first (q : string) (c : collection) (raw e : list Q)
    (tok : string) (k : Z) :
  ranks bm25_get_scores embed_content q c raw e tok ->
  (0 <= k)%Z ->
  let ranked := sort_desc (fused c raw e tok) in
  hybrid_search bm25_get_scores embed_content q c k
  = ([LineSearchStart], inr (map snd (firstn (Z.to_nat k) ranked))) /\
  forall p p',
    In p (firstn (Z.to_nat k) ranked) ->
    In p' (skipn (Z.to_nat k) ranked) ->
    fst p' <= fst p.
Proof.
  intros H Hk ranked. split.
  - rewrite (hybrid_search_ok _ _ _ _ _ _ _ k H).
    now rewrite slice_to_nonneg.
  - apply sorted_split, sort_desc_sorted.
Qed.

End Results.

Lemma result_length_witness :
  exists docs,
    hybrid_search Sample.term_overlap Sample.embed_ok "stats Oh"
      Sample.corpus3 (-1)
    = ([LineSearchStart], inr docs) /\
    length docs = 2%nat.
Proof.
  exact (result_length _ _ _ _ _ _ _ (-1) corpus3_ranks).
Defined.

Lemma result_from_corpus_witness :
  exists docs rest,
    hybrid_search Sample.term_overlap Sample.embed_ok "stats Oh"
      Sample.corpus3 2
    = ([LineSearchStart], inr docs) /\
    Permutation (docs ++ rest) (documents (get Sample.corpus3)) /\
    (forall d, In d docs -> In d (documents (get Sample.corpus3))).
Proof.
  exact (result_from_corpus _ _ _ _ _ _ _ 2 corpus3_ranks).
Defined.

Lemma result_prefix_witness :
  exists docs docs',
    hybrid_search Sample.term_overlap Sample.embed_ok "stats Oh"
      Sample.corpus3 1
    = ([LineSearchStart], inr docs) /\
    hybrid_search Sample.term_overlap Sample.embed_ok "stats Oh"
      Sample.corpus3 2
    = ([LineSearchStart], inr docs') /\
    docs = firstn 1 docs'.
Proof.
  apply (result_prefix _ _ _ _ _ _ _ 1 2 corpus3_ranks). lia.
Defined.

Lemma result_best_first_witness :
  hybrid_search Sample.term_overlap Sample.embed_ok "stats Oh"
    Sample.corpus3 1
  = ([LineSearchStart],
     inr (map snd (firstn 1
            (sort_desc (fused Sample.corpus3 Sample.raw3 [1; 0] "stats"))))).
Proof.
  destruct (result_best_first _ _ _ _ _ _ _ 1 corpus3_ranks) as [H _].
  - lia.
  - exact H.
Defined.

(** ** Ranges of the scores *)

Lemma max_from_map (f : Q -> Q) :
  (forall a b, Qltb (f a) (f b) = Qltb a b) ->
  forall l x, max_from (f x) (map f l) = f (max_from x l).
Proof.
  intros Hf. induction l as [|y l IH]; intros x; simpl; [reflexivity|].
  rewrite Hf. destruct (Qltb x y); apply IH.
Qed.

Lemma Qltb_div (m : Q) :
  0 < m -> forall a b, Qltb (a / m) (b / m) = Qltb a b.
Proof.
  intros Hm a b.
  assert (Hi : 0 < / m) by now apply Qinv_lt_0_compat.
  destruct (Qltb a b) eqn:E.
  - apply Qltb_lt in E. apply Qltb_lt. unfold Qdiv.
    now apply Qmult_lt_compat_r.
  - apply Qltb_ge in E. apply Qltb_ge. unfold Qdiv.
    apply Qmult_le_compat_r; [exact E|now apply Qlt_le_weak].
Qed.

Lemma div_bounds (s m : Q) : 0 < m -> 0 <= s -> s <= m -> 0 <= s / m <= 1.
Proof.
  intros Hm H0 H1. split.
  - apply Qle_shift_div_l; [exact Hm|]. lra.
  - apply Qle_shift_div_r; [exact Hm|]. lra.
Qed.

Lemma sparse_norm_range (raw : list Q) :
  Forall (fun s => 0 <= s) raw ->
  Forall (fun s => 0 <= s <= 1) (sparse_norm raw).
Proof.
  destruct raw as [|x l]; [constructor|]. intros Hnn. unfold sparse_norm.
  destruct (max_from_ge l x) as [Hx Hl].
  assert (Hall : Forall (fun s => 0 <= s <= max_from x l) (x :: l)).
  { apply Forall_forall. intros s Hs. apply list_elem_of_In in Hs.
    rewrite Forall_forall in Hnn. split.
    - now apply Hnn, list_elem_of_In.
    - destruct Hs as [<-|Hs]; [exact Hx|].
      rewrite Forall_forall in Hl. now apply Hl, list_elem_of_In. }
  destruct (Qltb 0 (max_from x l)) eqn:E.
  - apply Qltb_lt in E. apply Forall_map.
    eapply List.Forall_impl; [|exact Hall].
    intros s [H0 H1]. now apply div_bounds.
  - apply Qltb_ge in E. eapply List.Forall_impl; [|exact Hall].
    intros s [H0 H1]. split; [exact H0|]. lra.
Qed.

Lemma dense_map_values (max_dist : Q) (pairs : list (string * Q)) :
  forall (m : gmap string Q) doc_id v,
    dense_map max_dist pairs m !! doc_id = Some v ->
    m !! doc_id = Some v \/
    exists dist, In dist (map snd pairs) /\
                 v = 1 - dist / (max_dist + epsilon).
Proof.
  induction pairs as [|[i d] rest IH]; intros m doc_id v H;
    [now left|].
  unfold dense_map in *. simpl in H. apply IH in H as [H|(dist & Hin & Hv)].
  - apply lookup_insert_Some in H as [[_ <-]|[_ H]].
    + right. exists d. split; [now left|reflexivity].
    + now left.
  - right. exists dist. split; [now right|exact Hv].
Qed.

Lemma dense_norm_range (c : collection) (e : list Q) (doc_id : string) :
  Forall (fun d => 0 <= d)
         (distances0 (query c e (length (documents (get c))))) ->
  0 <= default 0 (dense_norm c e !! doc_id) <= 1.
Proof.
  intros Hnn. destruct (dense_norm c e !! doc_id) as [v|] eqn:E;
    [|simpl; split; discriminate].
  simpl. unfold dense_norm in E.
  apply dense_map_values in E as [E|(dist & Hin & ->)];
    [rewrite lookup_empty in E; discriminate|].
  apply in_map_iff in Hin as [[i d] [Hd Hin]]. simpl in Hd. subst d.
  apply in_combine_r in Hin.
  pose proof (nonneg_divisor _ Hnn) as Hpos.
  assert (H0 : 0 <= dist).
  { rewrite Forall_forall in Hnn. now apply Hnn, list_elem_of_In. }
  assert (H1 : dist <= max_distance
                        (distances0 (query c e (length (documents (get c)))))).
  { pose proof (max_distance_ge
                  (distances0 (query c e (length (documents (get c))))))
      as Hm.
    rewrite Forall_forall in Hm. now apply Hm, list_elem_of_In. }
  destruct (div_bounds dist _ Hpos H0) as [Ha Hb]; [pose proof epsilon_pos; lra|].
  lra.
Qed.

Section Scores.

Variable bm25_get_scores : list (list string) -> list string -> exn + list Q.
Variable embed_content : string -> string + list Q.

(** X9. In a run that reaches the ranking with non-negative raw BM25
    scores and non-negative distances, every score in [final_scores] lies
    between 0 and 1.1: the weighted sum is within [0,1] and the boost adds
    at most 0.1. *)
Theorem final_scores_range (q : string) (c : collection) (raw e : list Q)
    (tok : string) :
  ranks bm25_get_scores embed_content q c raw e tok ->
  Forall (fun s => 0 <= s) raw ->
  Forall (fun d => 0 <= d)
         (distances0 (query c e (length (documents (get c))))) ->
  score_documents bm25_get_scores embed_content q c
  = ret (Some (fused c raw e tok)) /\
  Forall (fun p => 0 <= fst p <= 11 # 10) (fused c raw e tok).
Proof.
  intros H Hraw Hdist.
  split; [exact (score_documents_ok _ _ _ _ _ _ _ H)|].
  unfold fused. apply Forall_map. apply Forall_forall.
  intros [doc_id [s doc]] Hin. apply list_elem_of_In in Hin.
  apply in_combine_r in Hin. apply in_combine_l in Hin.
  pose proof (sparse_norm_range raw Hraw) as Hs.
  rewrite Forall_forall in Hs. apply list_elem_of_In in Hin.
  apply Hs in Hin.
  pose proof (dense_norm_range c e doc_id Hdist) as Hv.
  unfold fused_entry, boost, weighted_sum, alpha, bonus. simpl fst. simpl snd.
  destruct (PyStr.contains tok doc); simpl fst; split; nra.
Qed.

(** X10. In a run that reaches the ranking, a document whose id is not
    among the ids the vector query returned gets the dense score 0: its
    score is [alpha] times its sparse score, plus the boost. *)
Theorem missing_dense_score (q : string) (c : collection) (raw e : list Q)
    (tok : string) :
  ranks bm25_get_scores embed_content q c raw e tok ->
  score_documents bm25_get_scores embed_content q c
  = ret (Some (fused c raw e tok)) /\
  forall i doc_id doc s,
    nth_error (ids (get c)) i = Some doc_id ->
    nth_error (documents (get c)) i = Some doc ->
    nth_error (sparse_norm raw) i = Some s ->
    ~ In doc_id (ids0 (query c e (length (documents (get c))))) ->
    exists total,
      nth_error (fused c raw e tok) i = Some (boost tok doc total, doc) /\
      total == alpha * s.
Proof.
  intros H. split; [exact (score_documents_ok _ _ _ _ _ _ _ H)|].
  intros i doc_id doc s Hi Hd Hs Hn.
  exists (weighted_sum alpha s 0). split; [|unfold weighted_sum; ring].
  rewrite (fused_nth c raw e tok i doc_id s doc Hi Hs Hd).
  assert (Hv : dense_norm c e !! doc_id = None).
  { unfold dense_norm. rewrite dense_map_notin; [apply lookup_empty|].
    intros Hin. apply Hn.
    apply in_map_iff in Hin as [[a b] [Ha Hin]]. simpl in Ha. subst a.
    now apply in_combine_l in Hin. }
  now rewrite Hv.
Qed.

End Scores.

Lemma final_scores_range_witness :
  Forall (fun p => 0 <= fst p <= 11 # 10)
         (fused Sample.corpus3 Sample.raw3 [1; 0] "stats").
Proof.
  destruct (final_scores_range _ _ _ _ _ _ _ corpus3_ranks) as [_ H].
  - repeat constructor; discriminate.
  - repeat constructor; discriminate.
  - exact H.
Defined.

Lemma corpus3_partial_ranks :
  ranks Sample.term_overlap Sample.embed_ok "stats Oh" corpus3_partial
        Sample.raw3 [1; 0] "stats".
Proof.
  constructor; try reflexivity; try discriminate.
  now exists ["Oh"%string].
Qed.

Lemma missing_dense_score_witness :
  exists total,
    nth_error (fused corpus3_partial Sample.raw3 [1; 0] "stats") 1
    = Some (boost "stats" "English Kim" total, "English Kim"%string) /\
    total == alpha * (0 / 2).
Proof.
  destruct (missing_dense_score _ _ _ _ _ _ _ corpus3_partial_ranks)
    as [_ H].
  apply (H 1%nat "b"%string "English Kim"%string (0 / 2));
    try reflexivity.
  simpl. intros [H1|[H1|[]]]; discriminate.
Defined.

(** ** More on the normalisation *)

Lemma Forall2_map_same {A} (f g : A -> Q) (l : list A) :
  (forall a, In a l -> f a == g a) -> Forall2 Qeq (map f l) (map g l).
Proof.
  induction l as [|a l IH]; intros H; simpl; constructor.
  - apply H. now left.
  - apply IH. intros b Hb. apply H. now right.
Qed.

(** X11. When the largest raw BM25 score [m] is positive, the normalised
    vector keeps the order of the raw scores, has no entry above 1, and
    holds exactly 1 where the raw vector holds its maximum; normalising a
    normalised vector changes no value. *)
Theorem normalize_unit_max (raw : list Q) (m : Q) :
  np_max raw = ret m ->
  0 < m ->
  exists sn,
    normalize raw = ret sn /\
    Forall (fun s => s <= 1) sn /\
    (forall i s, nth_error raw i = Some s -> s = m ->
                 exists s', nth_error sn i = Some s' /\ s' == 1) /\
    (forall i j a b a' b',
        nth_error raw i = Some a -> nth_error raw j = Some b ->
        nth_error sn i = Some a' -> nth_error sn j = Some b' ->
        a <= b -> a' <= b') /\
    exists sn', normalize sn = ret sn' /\ Forall2 Qeq sn' sn.
Proof.
  intros Hm Hpos.
  destruct (np_max_spec raw m Hm) as [Hle Hin].
  assert (Hi : 0 < / m) by now apply Qinv_lt_0_compat.
  exists (map (fun s => s / m) raw).
  split.
  { unfold normalize. rewrite Hm, bind_ret_l.
    now rewrite (proj2 (Qltb_lt 0 m) Hpos). }
  split.
  { apply List.Forall_forall. intros s' Hs'.
    apply in_map_iff in Hs' as [s [<- Hs]].
    rewrite List.Forall_forall in Hle. apply Hle in Hs.
    apply Qle_shift_div_r; [exact Hpos|]. lra. }
  split.
  { intros i s Hs ->. exists (m / m). split.
    - now rewrite nth_error_map, Hs.
    - field. intros H0. rewrite H0 in Hpos. discriminate. }
  split.
  { intros i j a b a' b' Ha Hb Ha' Hb' Hab.
    rewrite nth_error_map, Ha in Ha'. rewrite nth_error_map, Hb in Hb'.
    injection Ha' as <-. injection Hb' as <-.
    unfold Qdiv. apply Qmult_le_compat_r; [exact Hab|].
    now apply Qlt_le_weak. }
  destruct raw as [|x l]; [discriminate|].
  injection Hm as Hm. simpl map.
  rewrite normalize_cons.
  rewrite (max_from_map (fun s => s / m) (Qltb_div m Hpos)), Hm.
  assert (Hone : m / m == 1).
  { field. intros H0. rewrite H0 in Hpos. discriminate. }
  assert (H1 : Qltb 0 (m / m) = true).
  { apply Qltb_lt. rewrite Hone. reflexivity. }
  rewrite H1. eexists. split; [reflexivity|].
  change (x / m :: map (fun s => s / m) l)
    with (map (fun s => s / m) (x :: l)).
  rewrite <- (map_id (map (fun s => s / m) (x :: l))) at 2.
  apply Forall2_map_same. intros a _. simpl. rewrite Hone.
  field.
Qed.

Lemma normalize_unit_max_witness :
  exists sn, normalize Sample.raw3 = ret sn /\ Forall (fun s => s <= 1) sn.
Proof.
  destruct (normalize_unit_max Sample.raw3 2) as (sn & H1 & H2 & _).
  - reflexivity.
  - reflexivity.
  - now exists sn.
Defined.

(** ** Errors that escape *)

Lemma bind_ret_l_pair {A B} (out : list line) (a : A) (f : A -> M B) :
  bind (out, inr a) f = (out ++ fst (f a), snd (f a)).
Proof. unfold bind. now destruct (f a). Qed.

Lemma vector_scores_zero_divisor (max_dist : Q) (doc_id : string) (dist : Q)
    (rest : list (string * Q)) (m : gmap string Q) :
  max_dist + epsilon == 0 ->
  vector_scores max_dist ((doc_id, dist) :: rest) m = raise ZeroDivisionError.
Proof.
  intros H. simpl. unfold dense_score, py_div.
  apply Qeq_bool_iff in H. now rewrite H.
Qed.

Section Escapes.

Variable bm25_get_scores : list (list string) -> list string -> exn + list Q.
Variable embed_content : string -> string + list Q.
Variable generate_content : string -> string -> string + string.

(** X12. When the largest distance the vector query returns is exactly
    [-0.0001], the divisor [max_dist + 0.0001] is zero and the search
    raises [ZeroDivisionError] at the first returned document, whatever
    the query and [k]. *)
Theorem zero_divisor_raises (q : string) (c : collection) (raw e : list Q)
    (k : Z) :
  documents (get c) <> [] ->
  bm25_get_scores (map simple_tokenize (documents (get c)))
                  (simple_tokenize q) = inr raw ->
  raw <> [] ->
  embed_content q = inr e ->
  e <> [] ->
  combine (ids0 (query c e (length (documents (get c)))))
          (distances0 (query c e (length (documents (get c))))) <> [] ->
  max_distance (distances0 (query c e (length (documents (get c)))))
  + epsilon == 0 ->
  hybrid_search bm25_get_scores embed_content q c k
  = ([LineSearchStart], inl ZeroDivisionError).
Proof.
  intros Hdocs Hbm Hr Hemb Hne Hpairs Hz.
  unfold hybrid_search, score_documents.
  destruct (documents (get c)) as [|d ds] eqn:Ed; [congruence|].
  rewrite <- Ed in *. rewrite Hbm.
  change (([] : list line), (inr raw : exn + list Q)) with (ret raw).
  rewrite bind_ret_l, (normalize_sparse_norm raw Hr), bind_ret_l.
  unfold get_query_embedding. rewrite Hemb, bind_ret_l.
  destruct e as [|x e']; [congruence|].
  destruct (combine _ _) as [|[doc_id dist] rest]; [congruence|].
  rewrite (vector_scores_zero_divisor _ doc_id dist rest ∅ Hz).
  reflexivity.
Qed.

(** X13. [run_rag] has no handler around the search: whatever
    [hybrid_search] raises for [k = 7], [run_rag] raises too, after the
    same output. *)
Theorem run_rag_propagates (c : collection) (q : string) (out : list line)
    (err : exn) :
  hybrid_search bm25_get_scores embed_content q c 7 = (out, inl err) ->
  run_rag bm25_get_scores embed_content generate_content true c q
  = (out, inl err).
Proof.
  intros H. unfold run_rag. simpl negb. cbv iota. now rewrite H.
Qed.

(** X14. In a run that reaches the ranking, [run_rag] never answers "not
    found": it hands the generative model the first seven ranked
    documents (all of them when there are fewer), joined by blank lines,
    together with the query, and returns the model's text, or the Gemini
    error reply when the model call raises. *)
Theorem run_rag_answers (q : string) (c : collection) (raw e : list Q)
    (tok : string) :
  ranks bm25_get_scores embed_content q c raw e tok ->
  let top_docs :=
    map snd (firstn 7 (sort_desc (fused c raw e tok))) in
  (1 <= length top_docs <= 7)%nat /\
  length top_docs = Nat.min 7 (length (documents (get c))) /\
  run_rag bm25_get_scores embed_content generate_content true c q
  = ([LineSearchStart],
     inr match generate_content
                 (String.concat (String "010" (String "010" "")) top_docs) q
         with
         | inr text => ReplyAnswer text
         | inl msg => ReplyGeminiError msg
         end).
Proof.
  intros H top_docs.
  pose proof (hybrid_search_ok _ _ _ _ _ _ _ 7 H) as Hs.
  rewrite slice_to_nonneg in Hs by lia.
  change (Z.to_nat 7) with 7%nat in Hs. fold top_docs in Hs.
  assert (Hlen : length top_docs
                 = Nat.min 7 (length (documents (get c)))).
  { unfold top_docs.
    rewrite length_map, length_firstn, sort_desc_length.
    now rewrite (fused_length c raw e tok (ranks_ids _ _ _ _ _ _ _ H)
                   (ranks_raw _ _ _ _ _ _ _ H)). }
  assert (Hn : (1 <= length (documents (get c)))%nat).
  { pose proof (ranks_docs _ _ _ _ _ _ _ H) as Hd.
    destruct (documents (get c)); [congruence|simpl; lia]. }
  split; [lia|]. split; [exact Hlen|].
  unfold run_rag. simpl negb. cbv iota. rewrite Hs.
  unfold ret. rewrite bind_ret_l_pair.
  subst top_docs.
  destruct (map snd (firstn 7 (sort_desc (fused c raw e tok))))
    as [|d ds]; [cbn [length] in Hlen; lia|].
  now destruct (generate_content _ q).
Qed.

End Escapes.

Lemma zero_divisor_raises_witness :
  hybrid_search Sample.term_overlap Sample.embed_ok "stats Oh"
    corpus3_negative 7
  = ([LineSearchStart], inl ZeroDivisionError).
Proof.
  apply (zero_divisor_raises Sample.term_overlap Sample.embed_ok "stats Oh"
           corpus3_negative Sample.raw3 [1; 0] 7).
  - discriminate.
  - reflexivity.
  - discriminate.
  - reflexivity.
  - discriminate.
  - discriminate.
  - reflexivity.
Defined.

Lemma run_rag_propagates_witness :
  run_rag Sample.term_overlap Sample.embed_ok Sample.generate true
    Sample.corpus3 "  "
  = ([LineSearchStart], inl IndexError).
Proof.
  apply (run_rag_propagates Sample.term_overlap Sample.embed_ok
           Sample.generate Sample.corpus3 "  " [LineSearchStart] IndexError).
  reflexivity.
Defined.

Lemma run_rag_answers_witness :
  length (map snd (firstn 7
            (sort_desc (fused Sample.corpus3 Sample.raw3 [1; 0] "stats"))))
  = Nat.min 7 (length (documents (get Sample.corpus3))).
Proof.
  destruct (run_rag_answers Sample.term_overlap Sample.embed_ok
              Sample.generate _ _ _ _ _ corpus3_ranks) as (_ & H & _).
  exact H.
Defined.

(** * convert.py *)

Example replace_examples :
  PyStrExt.replace ".pdf" ".txt" "a.pdf.pdf" = "a.txt.txt"%string /\
  PyStrExt.replace ".pdf" ".txt" "A.PDF" = "A.PDF"%string /\
  PyStrExt.replace "aa" "b" "aaa" = "ba"%string /\
  PyStrExt.replace "" "-" "x" = "-x-"%string /\
  PyStrExt.endswith "a.pdf" ".pdf" = true /\
  PyStrExt.endswith "pdf" ".pdf" = false.
Proof. repeat split. Qed.

Section ConvertFacts.

Variable pdf_pages : string -> string + list string.
Variable clean_with_model : string -> string -> string + string.

Local Abbreviation loop := (convert_loop pdf_pages clean_with_model).
Local Abbreviation target := (PyStrExt.replace ".pdf" ".txt").
Local Abbreviation written := (written_text clean_with_model).

Lemma loop_cons (pdf_file : string) (rest : list string)
    (files : gmap string string) :
  snd (loop (pdf_file :: rest) files)
  = match files !! target pdf_file with
    | Some _ => snd (loop rest files)
    | None =>
        match pdf_pages pdf_file with
        | inl _ => snd (loop rest files)
        | inr pages =>
            snd (loop rest (<[target pdf_file := written pdf_file pages]> files))
        end
    end.
Proof.
  simpl. unfold written_text, extract_text_from_pdf.
  destruct (files !! _); [now destruct (loop rest files)|].
  destruct (pdf_pages pdf_file) as [e|pages];
    [now destruct (loop rest files)|].
  destruct (clean_text_with_gemini _ _ _) as [out1 text]. simpl.
  now destruct (loop rest _).
Qed.

Lemma loop_keeps (l : list string) : forall files name content,
  files !! name = Some content -> snd (loop l files) !! name = Some content.
Proof.
  induction l as [|f l IH]; intros files name content H; [exact H|].
  rewrite loop_cons.
  destruct (files !! target f) eqn:Et; [now apply IH|].
  destruct (pdf_pages f) as [e|pages]; [now apply IH|].
  apply IH. rewrite lookup_insert_ne; [exact H|]. congruence.
Qed.

Lemma loop_provenance (l : list string) : forall files name content,
  snd (loop l files) !! name = Some content ->
  files !! name = Some content \/
  exists pdf_file pages,
    In pdf_file l /\ name = target pdf_file /\
    pdf_pages pdf_file = inr pages /\ content = written pdf_file pages.
Proof.
  induction l as [|f l IH]; intros files name content H; [now left|].
  rewrite loop_cons in H.
  assert (Hrest : forall fs,
    snd (loop l fs) !! name = Some content ->
    fs !! name = Some content \/
    exists pdf_file pages,
      In pdf_file (f :: l) /\ name = target pdf_file /\
      pdf_pages pdf_file = inr pages /\ content = written pdf_file pages).
  { intros fs Hfs. apply IH in Hfs as [Hfs|(g & pages & Hin & Hg)];
      [now left|right]. exists g, pages. split; [now right|exact Hg]. }
  destruct (files !! target f) eqn:Et; [now apply Hrest|].
  destruct (pdf_pages f) as [e|pages] eqn:Ep; [now apply Hrest|].
  apply Hrest in H as [H|H]; [|now right].
  apply lookup_insert_Some in H as [[<- <-]|[_ H]]; [|now left].
  right. exists f, pages. split; [now left|]. now split.
Qed.

Lemma loop_complete (l : list string) : forall files pdf_file pages,
  In pdf_file l -> pdf_pages pdf_file = inr pages ->
  is_Some (snd (loop l files) !! target pdf_file).
Proof.
  induction l as [|f l IH]; intros files g pages Hin Hg; [destruct Hin|].
  rewrite loop_cons. destruct Hin as [->|Hin].
  - destruct (files !! target g) as [c|] eqn:Et.
    + exists c. now apply loop_keeps.
    + rewrite Hg. eexists. apply loop_keeps. apply lookup_insert_eq.
  - destruct (files !! target f); [now apply (IH _ g pages)|].
    destruct (pdf_pages f); now apply (IH _ g pages).
Qed.

Lemma loop_fixed (l : list string) : forall files,
  (forall pdf_file, In pdf_file l ->
     is_Some (files !! target pdf_file)
     \/ exists e, pdf_pages pdf_file = inl e) ->
  snd (loop l files) = files.
Proof.
  induction l as [|f l IH]; intros files H; [reflexivity|].
  rewrite loop_cons.
  assert (Hl : forall g, In g l ->
            is_Some (files !! target g) \/ exists e, pdf_pages g = inl e)
    by (intros g Hg; apply H; now right).
  destruct (H f (or_introl eq_refl)) as [[c Hc]|[e He]].
  - rewrite Hc. now apply IH.
  - rewrite He. destruct (files !! target f); now apply IH.
Qed.

Lemma snd_process (pdf_dir : list string)
    (txt_dir : option (gmap string string)) :
  snd (process_all_pdfs pdf_pages clean_with_model pdf_dir txt_dir)
  = snd (loop (List.filter is_pdf pdf_dir)
              (match txt_dir with Some files => files | None => ∅ end)).
Proof.
  unfold process_all_pdfs. now destruct (loop _ _).
Qed.

(** X15. [process_all_pdfs] never overwrites: every file that is in
    [TXT_DIR] before the run is there with the same content afterwards. *)
Theorem convert_keeps_existing (pdf_dir : list string)
    (files : gmap string string) (name content : string) :
  files !! name = Some content ->
  snd (process_all_pdfs pdf_pages clean_with_model pdf_dir (Some files))
  !! name = Some content.
Proof. intros H. rewrite snd_process. now apply loop_keeps. Qed.

(** X16. Every file that a run of [process_all_pdfs] adds to [TXT_DIR]
    comes from a name in [PDF_DIR] that ends in ".pdf" in any letter case
    and whose PDF could be read: the file is named like the PDF with
    every ".pdf" replaced by ".txt", and holds the model's answer for the
    extracted text or, when the model call raised, the extracted text
    itself, in full. *)
Theorem convert_provenance (pdf_dir : list string)
    (txt_dir : option (gmap string string)) (name content : string) :
  match txt_dir with Some files => files !! name = None | None => True end ->
  snd (process_all_pdfs pdf_pages clean_with_model pdf_dir txt_dir)
  !! name = Some content ->
  exists pdf_file pages,
    In pdf_file pdf_dir /\ is_pdf pdf_file = true /\
    name = PyStrExt.replace ".pdf" ".txt" pdf_file /\
    pdf_pages pdf_file = inr pages /\
    content
    = match clean_with_model
              (PyStrExt.take (30 * 1000) (String.concat EmptyString pages))
              pdf_file
      with
      | inr text => text
      | inl _ => String.concat EmptyString pages
      end.
Proof.
  intros Hnew H. rewrite snd_process in H.
  apply loop_provenance in H as [H|(f & pages & Hin & -> & Hp & ->)].
  - destruct txt_dir as [files|]; [congruence|].
    rewrite lookup_empty in H. discriminate.
  - apply filter_In in Hin as [Hin Hpdf].
    exists f, pages. repeat (split; [assumption || reflexivity|]).
    unfold written_text, clean_text_with_gemini.
    now destruct (clean_with_model _ f).
Qed.

(** X17. After a run of [process_all_pdfs], every readable PDF of
    [PDF_DIR] has its text file in [TXT_DIR], and a second run over the
    same directory changes nothing: it writes no file. *)
Theorem convert_resumable (pdf_dir : list string)
    (txt_dir : option (gmap string string)) :
  let files :=
    snd (process_all_pdfs pdf_pages clean_with_model pdf_dir txt_dir) in
  (forall pdf_file pages,
      In pdf_file pdf_dir -> is_pdf pdf_file = true ->
      pdf_pages pdf_file = inr pages ->
      is_Some (files !! PyStrExt.replace ".pdf" ".txt" pdf_file)) /\
  snd (process_all_pdfs pdf_pages clean_with_model pdf_dir (Some files))
  = files.
Proof.
  intros files.
  assert (Hc : forall pdf_file pages,
    In pdf_file pdf_dir -> is_pdf pdf_file = true ->
    pdf_pages pdf_file = inr pages ->
    is_Some (files !! target pdf_file)).
  { intros f pages Hin Hpdf Hp. unfold files. rewrite snd_process.
    apply (loop_complete _ _ f pages); [|exact Hp].
    apply filter_In. now split. }
  split; [exact Hc|].
  rewrite snd_process. apply loop_fixed.
  intros f Hin. apply filter_In in Hin as [Hin Hpdf].
  destruct (pdf_pages f) as [e|pages] eqn:Ep; [right; now exists e|].
  left. now apply (Hc f pages).
Qed.

End ConvertFacts.

Lemma convert_keeps_existing_witness :
  snd (process_all_pdfs ConvertSample.pages ConvertSample.model
         ConvertSample.pdf_dir (Some ConvertSample.old_files))
  !! "a.txt"%string = Some "kept"%string.
Proof.
  apply (convert_keeps_existing ConvertSample.pages ConvertSample.model).
  reflexivity.
Defined.

Lemma convert_provenance_witness :
  exists pdf_file pages,
    In pdf_file ConvertSample.pdf_dir /\ is_pdf pdf_file = true /\
    "B.PDF"%string = PyStrExt.replace ".pdf" ".txt" pdf_file /\
    ConvertSample.pages pdf_file = inr pages /\
    "page one page two"%string
    = match ConvertSample.model
              (PyStrExt.take (30 * 1000) (String.concat EmptyString pages))
              pdf_file
      with
      | inr text => text
      | inl _ => String.concat EmptyString pages
      end.
Proof.
  apply (convert_provenance ConvertSample.pages ConvertSample.model
           ConvertSample.pdf_dir (Some ConvertSample.old_files)).
  - reflexivity.
  - reflexivity.
Defined.

(** ** File names *)

Lemma replace_aux_absent (old new : string) : forall s,
  PyStr.contains old s = false -> PyStrExt.replace_aux old new 0 s = s.
Proof.
  induction s as [|c s IH]; intros H; [reflexivity|].
  change (PyStr.contains old (String c s))
    with (String.prefix old (String c s) || PyStr.contains old s) in H.
  apply orb_false_iff in H as [Hp Hc].
  change (PyStrExt.replace_aux old new 0 (String c s))
    with (if String.prefix old (String c s)
          then String.append new
                 (PyStrExt.replace_aux old new (String.length old - 1) s)
          else String c (PyStrExt.replace_aux old new 0 s)).
  rewrite Hp. now rewrite IH.
Qed.

Lemma prefix_false (a b : string) :
  (forall post, b <> String.append a post) -> String.prefix a b = false.
Proof.
  intros H. destruct (String.prefix a b) eqn:E; [|reflexivity].
  apply prefix_spec in E as [post E]. now apply H in E.
Qed.

Lemma prefix_pdf_append (c : ascii) (s : string) :
  String.prefix ".pdf" (String c s) = false ->
  String.prefix ".pdf" (String c (String.append s ".pdf")) = false.
Proof.
  intros H. apply prefix_false. intros post E.
  assert (Hn : forall post', String c s <> String.append ".pdf" post').
  { intros post' E'. assert (Ht : String.prefix ".pdf" (String c s) = true)
      by (apply prefix_spec; now exists post').
    congruence. }
  destruct s as [|c2 [|c3 [|c4 s]]].
  - injection E as _ E. discriminate.
  - injection E as _ _ E. discriminate.
  - injection E as _ _ _ E. discriminate.
  - rewrite !append_cons in E. injection E as -> -> -> -> _.
    apply (Hn s). reflexivity.
Qed.

(** X18. A PDF whose name is [stem ++ ".pdf"], with no further ".pdf" in
    the stem, is converted into the text file [stem ++ ".txt"]. *)
Theorem target_name (stem : string) :
  PyStr.contains ".pdf" stem = false ->
  PyStrExt.replace ".pdf" ".txt" (String.append stem ".pdf")
  = String.append stem ".txt".
Proof.
  unfold PyStrExt.replace. induction stem as [|c stem IH]; intros H.
  - reflexivity.
  - change (PyStr.contains ".pdf" (String c stem))
      with (String.prefix ".pdf" (String c stem)
            || PyStr.contains ".pdf" stem) in H.
    apply orb_false_iff in H as [Hp Hc].
    rewrite !append_cons.
    change (PyStrExt.replace_aux ".pdf" ".txt" 0
              (String c (String.append stem ".pdf")))
      with (if String.prefix ".pdf" (String c (String.append stem ".pdf"))
            then String.append ".txt"
                   (PyStrExt.replace_aux ".pdf" ".txt"
                      (String.length ".pdf" - 1) (String.append stem ".pdf"))
            else String c (PyStrExt.replace_aux ".pdf" ".txt" 0
                             (String.append stem ".pdf"))).
    rewrite (prefix_pdf_append c stem Hp). now rewrite IH.
Qed.

Lemma target_name_witness :
  PyStrExt.replace ".pdf" ".txt" (String.append "stats.v2" ".pdf")
  = String.append "stats.v2" ".txt".
Proof. apply target_name. reflexivity. Defined.

Lemma endswith_exclusive (s a b : string) :
  String.length a = String.length b -> a <> b ->
  PyStrExt.endswith s a = true -> PyStrExt.endswith s b = false.
Proof.
  unfold PyStrExt.endswith. intros Hl Hne H.
  apply andb_true_iff in H as [_ H]. apply String.eqb_eq in H.
  rewrite <- Hl, H. apply andb_false_iff. right.
  now apply String.eqb_neq.
Qed.

Section ConvertNames.

Variable pdf_pages : string -> string + list string.
Variable clean_with_model : string -> string -> string + string.

(** X19. A name that passes the PDF filter only thanks to upper-case
    letters in its extension (it ends in ".pdf" after lowercasing but
    contains no ".pdf") is not renamed: when the PDF can be read, its text
    is in [TXT_DIR] after the run under the PDF's own name, which does
    not end in ".txt", also not after lowercasing. *)
Theorem uppercase_extension_kept (pdf_dir : list string)
    (txt_dir : option (gmap string string)) (pdf_file : string)
    (pages : list string) :
  In pdf_file pdf_dir ->
  is_pdf pdf_file = true ->
  PyStr.contains ".pdf" pdf_file = false ->
  pdf_pages pdf_file = inr pages ->
  PyStrExt.replace ".pdf" ".txt" pdf_file = pdf_file /\
  is_Some (snd (process_all_pdfs pdf_pages clean_with_model pdf_dir txt_dir)
           !! pdf_file) /\
  PyStrExt.endswith (PyStr.lower pdf_file) ".txt" = false.
Proof.
  intros Hin Hpdf Hc Hp.
  assert (Ht : PyStrExt.replace ".pdf" ".txt" pdf_file = pdf_file)
    by now apply replace_aux_absent.
  split; [exact Ht|]. split.
  - rewrite snd_process, <- Ht at 1.
    apply (loop_complete pdf_pages clean_with_model _ _ pdf_file pages);
      [|exact Hp].
    apply filter_In. now split.
  - apply (endswith_exclusive _ ".pdf" ".txt"); [reflexivity|discriminate|].
    exact Hpdf.
Qed.

End ConvertNames.

Lemma uppercase_extension_kept_witness :
  is_Some (snd (process_all_pdfs ConvertSample.pages ConvertSample.model
                  ConvertSample.pdf_dir (Some ConvertSample.old_files))
           !! "B.PDF"%string).
Proof.
  destruct (uppercase_extension_kept ConvertSample.pages ConvertSample.model
              ConvertSample.pdf_dir (Some ConvertSample.old_files)
              "B.PDF" ["page one "; "page two"]%string) as (_ & H & _).
  - right. right. now left.
  - reflexivity.
  - reflexivity.
  - reflexivity.
  - exact H.
Defined.

(** The sample run: "a.txt" is kept, "B.PDF" holds the raw text because the
    model call failed, "bad.pdf" leaves no file. *)
Example convert_sample_run :
  process_all_pdfs ConvertSample.pages ConvertSample.model
    ConvertSample.pdf_dir (Some ConvertSample.old_files)
  = ([CLineFound 3; CLineExists "a.txt"; CLineProcessing "B.PDF";
      CLineGeminiFailed "B.PDF" "quota"; CLineDone;
      CLineProcessing "bad.pdf"; CLinePdfFailed "broken"],
     <["B.PDF"%string := "page one page two"%string]>
       ConvertSample.old_files).
Proof. vm_compute. reflexivity. Qed.

(** * rag_builder_txt.py *)

(** ** Stripping *)

Lemma lstrip_head (s : Uni.text) :
  match Uni.lstrip s with
  | [] => True
  | c :: _ => Uni.isspace c = false
  end.
Proof.
  induction s as [|c s IH]; simpl; [exact I|].
  destruct (Uni.isspace c) eqn:E; [exact IH|exact E].
Qed.

Lemma lstrip_fixed (c : N) (s : Uni.text) :
  Uni.isspace c = false -> Uni.lstrip (c :: s) = c :: s.
Proof. intros H. simpl. now rewrite H. Qed.

Lemma lstrip_idem (s : Uni.text) : Uni.lstrip (Uni.lstrip s) = Uni.lstrip s.
Proof.
  pose proof (lstrip_head s) as H.
  destruct (Uni.lstrip s) as [|c r]; [reflexivity|].
  now apply lstrip_fixed.
Qed.

Lemma lstrip_snoc (s : Uni.text) (c : N) :
  Uni.isspace c = false -> Uni.lstrip (s ++ [c]) = Uni.lstrip s ++ [c].
Proof.
  intros H. induction s as [|a s IH]; simpl.
  - now rewrite H.
  - destruct (Uni.isspace a); [exact IH|reflexivity].
Qed.

Lemma lstrip_In (s : Uni.text) (c : N) : In c (Uni.lstrip s) -> In c s.
Proof.
  induction s as [|a s IH]; simpl; [tauto|].
  destruct (Uni.isspace a); [intros H; right; now apply IH|tauto].
Qed.

Lemma strip_In (s : Uni.text) (c : N) : In c (Uni.strip s) -> In c s.
Proof.
  unfold Uni.strip. intros H.
  apply in_rev in H. apply lstrip_In in H. apply in_rev in H.
  now apply lstrip_In.
Qed.

Lemma strip_fixed (s : Uni.text) :
  match s with [] => True | c :: _ => Uni.isspace c = false end ->
  match List.rev s with [] => True | c :: _ => Uni.isspace c = false end ->
  Uni.strip s = s.
Proof.
  intros Hh Ht. unfold Uni.strip.
  assert (H1 : Uni.lstrip s = s).
  { destruct s as [|c r]; [reflexivity|now apply lstrip_fixed]. }
  rewrite H1.
  assert (H2 : Uni.lstrip (List.rev s) = List.rev s).
  { destruct (List.rev s) as [|c r]; [reflexivity|now apply lstrip_fixed]. }
  rewrite H2. apply rev_involutive.
Qed.

Lemma strip_idem (s : Uni.text) : Uni.strip (Uni.strip s) = Uni.strip s.
Proof.
  pose proof (lstrip_head s) as Hh.
  destruct (Uni.lstrip s) as [|a r] eqn:E.
  - unfold Uni.strip. rewrite E. reflexivity.
  - assert (Hs : Uni.strip s = a :: List.rev (Uni.lstrip (List.rev r))).
    { unfold Uni.strip. rewrite E.
      change (List.rev (a :: r)) with (List.rev r ++ [a]).
      rewrite (lstrip_snoc _ a Hh), rev_app_distr. reflexivity. }
    rewrite Hs. apply strip_fixed; [exact Hh|].
    change (List.rev (a :: List.rev (Uni.lstrip (List.rev r))))
      with (List.rev (List.rev (Uni.lstrip (List.rev r))) ++ [a]).
    rewrite rev_involutive, <- (lstrip_snoc _ a Hh).
    apply lstrip_head.
Qed.

(** ** The patterns *)

Lemma strip_prefix_spec (p : Uni.text) : forall s r,
  Uni.strip_prefix p s = Some r <-> s = p ++ r.
Proof.
  induction p as [|a p IH]; intros s r; simpl.
  - split; [now intros [= ->]|now intros ->].
  - destruct s as [|b s]; [split; discriminate|].
    destruct (N.eqb_spec a b) as [->|Hne].
    + rewrite IH. split; [now intros ->|now intros [= ->]].
    + split; [discriminate|]. intros [= H _]. congruence.
Qed.

Lemma strip_prefix_long (p : Uni.text) : forall a b,
  Uni.strip_prefix p a = None -> (length p <= length a)%nat ->
  Uni.strip_prefix p (a ++ b) = None.
Proof.
  induction p as [|x p IH]; intros a b H Hl; simpl in *; [discriminate|].
  destruct a as [|y a]; [simpl in Hl; lia|]. simpl.
  destruct (N.eqb x y); [|reflexivity].
  apply IH; [exact H|simpl in Hl; lia].
Qed.

Lemma line_prefix_no_newline (s : Uni.text) :
  ~ In Uni.newline (Uni.line_prefix s).
Proof.
  induction s as [|c s IH]; simpl; [tauto|].
  destruct (N.eqb_spec c Uni.newline) as [->|Hne]; simpl; [tauto|].
  intros [H|H]; [congruence|now apply IH].
Qed.

Lemma line_prefix_line (value rest : Uni.text) :
  ~ In Uni.newline value ->
  match rest with [] => True | c :: _ => c = Uni.newline end ->
  Uni.line_prefix (value ++ rest) = value.
Proof.
  intros Hv Hr. induction value as [|c value IH]; simpl.
  - destruct rest as [|c rest]; [reflexivity|]. subst c. reflexivity.
  - destruct (N.eqb_spec c Uni.newline) as [->|Hne].
    + exfalso. apply Hv. now left.
    + f_equal. apply IH. intros H. apply Hv. now right.
Qed.

Lemma match_group_no_newline (s g : Uni.text) :
  match_group s = Some g -> ~ In Uni.newline g.
Proof.
  unfold match_group. pose proof (line_prefix_no_newline s) as H.
  destruct (Uni.line_prefix s); [discriminate|]. now intros [= <-].
Qed.

Lemma match_value_no_newline (s : Uni.text) : forall g,
  match_value s = Some g -> ~ In Uni.newline g.
Proof.
  induction s as [|c s IH]; intros g H; [discriminate|].
  simpl in H. destruct (Uni.isspace c).
  - destruct (match_value s) as [g'|] eqn:E.
    + injection H as <-. now apply IH.
    + now apply match_group_no_newline in H.
  - now apply match_group_no_newline in H.
Qed.

Lemma search_field_eq (lit s : Uni.text) :
  search_field lit s
  = match
      match Uni.strip_prefix lit s with
      | Some rest => match_value rest
      | None => None
      end
    with
    | Some g => Some g
    | None =>
        match s with
        | [] => None
        | _ :: s' => search_field lit s'
        end
    end.
Proof. destruct s; reflexivity. Qed.

Lemma search_field_no_newline (lit s : Uni.text) : forall g,
  search_field lit s = Some g -> ~ In Uni.newline g.
Proof.
  induction s as [|c s IH]; intros g H; rewrite search_field_eq in H.
  - destruct (Uni.strip_prefix lit []) as [rest|]; [|discriminate].
    destruct (match_value rest) eqn:E; [|discriminate].
    injection H as <-. now apply match_value_no_newline in E.
  - destruct (Uni.strip_prefix lit (c :: s)) as [rest|].
    + destruct (match_value rest) eqn:E.
      * injection H as <-. now apply match_value_no_newline in E.
      * now apply IH.
    + now apply IH.
Qed.

Lemma search_field_absent (lit s : Uni.text) :
  (forall pre post, s <> pre ++ lit ++ post) -> search_field lit s = None.
Proof.
  induction s as [|c s IH]; intros H; rewrite search_field_eq.
  - destruct (Uni.strip_prefix lit []) as [rest|] eqn:E; [|reflexivity].
    apply strip_prefix_spec in E. exfalso. now apply (H [] rest).
  - destruct (Uni.strip_prefix lit (c :: s)) as [rest|] eqn:E.
    + apply strip_prefix_spec in E. exfalso. now apply (H [] rest).
    + apply IH. intros pre post Hs. apply (H (c :: pre) post).
      simpl. now rewrite Hs.
Qed.

Lemma match_value_cons (c : N) (s : Uni.text) :
  match_value (c :: s)
  = if Uni.isspace c
    then match match_value s with
         | Some g => Some g
         | None => match_group (c :: s)
         end
    else match_group (c :: s).
Proof. reflexivity. Qed.

Lemma match_value_line (ws : Uni.text) (v : N) (vs rest : Uni.text) :
  Forall (fun c => Uni.isspace c = true) ws ->
  Uni.isspace v = false ->
  ~ In Uni.newline (v :: vs) ->
  match rest with [] => True | c :: _ => c = Uni.newline end ->
  match_value (ws ++ (v :: vs) ++ rest) = Some (v :: vs).
Proof.
  intros Hws Hv Hn Hr.
  assert (Hg : match_group ((v :: vs) ++ rest) = Some (v :: vs)).
  { unfold match_group. now rewrite (line_prefix_line _ _ Hn Hr). }
  induction ws as [|c ws IH].
  - rewrite app_nil_l, <- app_comm_cons, match_value_cons, Hv.
    now rewrite app_comm_cons.
  - inversion Hws as [|? ? Hc Hrest]; subst.
    rewrite <- app_comm_cons, match_value_cons, Hc.
    now rewrite (IH Hrest).
Qed.

Lemma occursb_app_head (lit : Uni.text) : forall s,
  occursb lit s = false -> Uni.strip_prefix lit s = None.
Proof.
  intros s H. destruct s; simpl in H;
    destruct (Uni.strip_prefix lit _); congruence.
Qed.

Lemma occursb_tail (lit : Uni.text) (c : N) (s : Uni.text) :
  occursb lit (c :: s) = false -> occursb lit s = false.
Proof.
  simpl. now destruct (Uni.strip_prefix lit (c :: s)).
Qed.

Lemma occursb_absent (lit s : Uni.text) :
  occursb lit s = false -> forall pre post, s <> pre ++ lit ++ post.
Proof.
  intros H pre. revert s H.
  induction pre as [|c pre IH]; intros s H post E.
  - apply occursb_app_head in H.
    assert (Hs : Uni.strip_prefix lit s = Some post)
      by now apply strip_prefix_spec.
    congruence.
  - subst s. rewrite <- app_comm_cons in H. apply occursb_tail in H.
    now apply (IH _ H post).
Qed.

Lemma search_field_first (lit pre tail : Uni.text) :
  lit <> [] ->
  occursb lit (pre ++ removelast lit) = false ->
  search_field lit (pre ++ lit ++ tail) = search_field lit (lit ++ tail).
Proof.
  intros Hlit. induction pre as [|c pre IH]; intros H; [reflexivity|].
  rewrite search_field_eq.
  assert (Hnone : Uni.strip_prefix lit ((c :: pre) ++ lit ++ tail) = None).
  { rewrite (app_removelast_last 0%N Hlit) at 2.
    rewrite <- (app_assoc (removelast lit)), (app_assoc (c :: pre)).
    apply strip_prefix_long; [now apply occursb_app_head|].
    rewrite length_app. simpl length.
    rewrite (app_removelast_last 0%N Hlit) at 1.
    rewrite length_app. simpl. lia. }
  rewrite Hnone. simpl app. apply IH.
  now apply occursb_tail in H.
Qed.

Lemma search_field_here (lit tail g : Uni.text) :
  match_value tail = Some g -> search_field lit (lit ++ tail) = Some g.
Proof.
  intros H. rewrite search_field_eq.
  assert (Hs : Uni.strip_prefix lit (lit ++ tail) = Some tail)
    by now apply strip_prefix_spec.
  now rewrite Hs, H.
Qed.

Lemma label_literal_nonempty (label : Uni.text) : label_literal label <> [].
Proof. discriminate. Qed.

(** X20. A field whose label ["**label:**"] does not occur in the text is
    reported as "정보없음": this holds for the professor, the year and the
    credits alike. *)
Theorem extract_default (text label : Uni.text)
    (field : core_info -> Uni.text) :
  In (label, field) core_fields ->
  (forall pre post, text <> pre ++ label_literal label ++ post) ->
  field (extract_core_info text) = no_info.
Proof.
  intros Hin Habs.
  assert (H : extract_field label text = no_info).
  { unfold extract_field. now rewrite search_field_absent. }
  destruct Hin as [[= <- <-]|[[= <- <-]|[[= <- <-]|[]]]]; exact H.
Qed.

Lemma extract_default_witness :
  credit (extract_core_info BuildSample.syllabus) = no_info.
Proof.
  apply (extract_default BuildSample.syllabus label_credit credit).
  - right. right. now left.
  - apply occursb_absent. reflexivity.
Defined.

(** X21. Whatever the text, the three fields [extract_core_info] returns
    contain no newline and have neither leading nor trailing whitespace:
    stripping them again changes nothing. *)
Theorem extract_clean (text label : Uni.text)
    (field : core_info -> Uni.text) :
  In (label, field) core_fields ->
  ~ In Uni.newline (field (extract_core_info text)) /\
  Uni.strip (field (extract_core_info text)) = field (extract_core_info text).
Proof.
  intros Hin.
  assert (H : ~ In Uni.newline (extract_field label text) /\
              Uni.strip (extract_field label text) = extract_field label text).
  { unfold extract_field.
    destruct (search_field (label_literal label) text) as [g|] eqn:E.
    - split; [|apply strip_idem].
      intros Hn. apply strip_In in Hn.
      now apply (search_field_no_newline _ _ _ E).
    - split; [|reflexivity].
      unfold no_info, Uni.newline. simpl.
      intros [H|[H|[H|[H|[]]]]]; discriminate. }
  destruct Hin as [[= <- <-]|[[= <- <-]|[[= <- <-]|[]]]]; exact H.
Qed.

Lemma extract_clean_witness :
  Uni.strip (professor (extract_core_info BuildSample.syllabus))
  = professor (extract_core_info BuildSample.syllabus).
Proof.
  apply (extract_clean BuildSample.syllabus label_professor professor).
  now left.
Defined.

(** X22. When the first occurrence of a label ["**label:**"] in the text
    is followed by whitespace (possibly none, possibly with newlines) and
    then by a run [value] of characters other than newline that starts
    with a non-space and reaches the end of its line, the field is
    [value] without its trailing whitespace. *)
Theorem extract_line (label : Uni.text) (field : core_info -> Uni.text)
    (pre ws : Uni.text) (v : N) (vs rest : Uni.text) :
  In (label, field) core_fields ->
  occursb (label_literal label) (pre ++ removelast (label_literal label))
  = false ->
  Forall (fun c => Uni.isspace c = true) ws ->
  Uni.isspace v = false ->
  ~ In Uni.newline (v :: vs) ->
  match rest with [] => True | c :: _ => c = Uni.newline end ->
  field (extract_core_info
           (pre ++ label_literal label ++ ws ++ (v :: vs) ++ rest))
  = Uni.strip (v :: vs).
Proof.
  intros Hin Hfirst Hws Hv Hn Hr.
  assert (H : extract_field label
                (pre ++ label_literal label ++ ws ++ (v :: vs) ++ rest)
              = Uni.strip (v :: vs)).
  { unfold extract_field.
    rewrite (search_field_first _ _ _ (label_literal_nonempty label) Hfirst).
    now rewrite (search_field_here _ _ (v :: vs)
                   (match_value_line ws v vs rest Hws Hv Hn Hr)). }
  destruct Hin as [[= <- <-]|[[= <- <-]|[[= <- <-]|[]]]]; exact H.
Qed.

Lemma extract_line_witness :
  professor (extract_core_info BuildSample.syllabus)
  = Uni.strip [0xC624; 0xBBFC; 0xC2DD]%N.
Proof.
  apply (extract_line label_professor professor [0x2A; 0x20]%N [0x20]%N
           0xC624%N [0xBBFC; 0xC2DD]%N
           ([0x0A; 0x2A; 0x20]%N ++ label_literal label_grade
            ++ [0x20; 0x33; 0xD559; 0xB144]%N)).
  - now left.
  - reflexivity.
  - repeat constructor.
  - reflexivity.
  - simpl. intros [H|[H|[H|[]]]]; discriminate.
  - reflexivity.
Defined.

(** ** Loading and chunking *)

Section Loading.

Variable file_stem : Uni.text -> Uni.text.
Variable read_file : Uni.text -> Uni.text + Uni.text.
Variable split_text : Uni.text -> Uni.text + list Uni.text.

Local Abbreviation entries := (file_entries file_stem read_file split_text).
Local Abbreviation load := (load_and_chunk_files file_stem read_file split_text).

Lemma inject_spec (file_name : Uni.text) (info : core_info)
    (chunks : list Uni.text) : forall all_chunks all_metadatas,
  inject file_name info chunks all_chunks all_metadatas
  = (all_chunks
     ++ map (enhanced_chunk
               (header_tag file_name (professor info) (grade info))) chunks,
     all_metadatas
     ++ map (fun _ => {| md_source := file_name;
                         md_professor := professor info;
                         md_grade := grade info |}) chunks).
Proof.
  induction chunks as [|chunk rest IH]; intros ac am; simpl.
  - now rewrite !app_nil_r.
  - rewrite IH, <- !app_assoc. reflexivity.
Qed.

Lemma load_loop_spec (txt_files : list Uni.text) :
  forall all_chunks all_metadatas,
    snd (load_loop file_stem read_file split_text txt_files
           all_chunks all_metadatas)
    = (all_chunks ++ map fst (flat_map entries txt_files),
       all_metadatas ++ map snd (flat_map entries txt_files)).
Proof.
  induction txt_files as [|path rest IH]; intros ac am; simpl.
  - now rewrite !app_nil_r.
  - unfold file_entries at 1 3.
    destruct (read_file path) as [e|raw_text].
    + specialize (IH ac am).
      destruct (load_loop _ _ _ rest ac am) as [out r]. exact IH.
    + destruct (split_text raw_text) as [e|chunks].
      * specialize (IH ac am).
        destruct (load_loop _ _ _ rest ac am) as [out r]. exact IH.
      * rewrite inject_spec.
        match goal with
        | |- context [load_loop _ _ _ rest ?a ?b] =>
            specialize (IH a b);
            destruct (load_loop file_stem read_file split_text rest a b)
              as [out r]
        end.
        simpl in *. rewrite IH.
        rewrite !map_app, !map_map, <- !app_assoc. reflexivity.
Qed.

Lemma load_spec (txt_files : list Uni.text) :
  snd (load txt_files)
  = (map fst (flat_map entries txt_files),
     map snd (flat_map entries txt_files)).
Proof.
  unfold load_and_chunk_files.
  pose proof (load_loop_spec txt_files [] []) as H.
  destruct (load_loop _ _ _ txt_files [] []) as [out r]. exact H.
Qed.

Lemma entries_form (path : Uni.text) (e : Uni.text * metadata) :
  In e (entries path) ->
  exists raw_text chunks chunk,
    read_file path = inr raw_text /\ split_text raw_text = inr chunks /\
    In chunk chunks /\
    snd e = {| md_source := file_stem path;
               md_professor := professor (extract_core_info raw_text);
               md_grade := grade (extract_core_info raw_text) |} /\
    fst e = enhanced_chunk
              (header_tag (md_source (snd e)) (md_professor (snd e))
                          (md_grade (snd e)))
              chunk.
Proof.
  unfold file_entries. intros H.
  destruct (read_file path) as [?|raw_text]; [destruct H|].
  destruct (split_text raw_text) as [?|chunks] eqn:Es; [destruct H|].
  apply in_map_iff in H as [chunk [<- Hin]].
  exists raw_text, chunks, chunk.
  split; [reflexivity|]. split; [exact Es|]. split; [exact Hin|].
  split; reflexivity.
Qed.

(** X23. The two lists [load_and_chunk_files] returns are aligned: they
    have the same length, and the chunk at every position is the header
    built from the metadata at that position, a newline, and a piece that
    the splitter produced for a file that could be read, whose stem,
    professor and year are the metadata. *)
Theorem load_aligned (txt_files : list Uni.text) :
  let all_chunks := fst (snd (load txt_files)) in
  let all_metadatas := snd (snd (load txt_files)) in
  length all_chunks = length all_metadatas /\
  forall i chunk md,
    nth_error all_chunks i = Some chunk ->
    nth_error all_metadatas i = Some md ->
    exists path raw_text pieces piece,
      In path txt_files /\
      read_file path = inr raw_text /\ split_text raw_text = inr pieces /\
      In piece pieces /\
      md = {| md_source := file_stem path;
              md_professor := professor (extract_core_info raw_text);
              md_grade := grade (extract_core_info raw_text) |} /\
      chunk = header_tag (md_source md) (md_professor md) (md_grade md)
              ++ [Uni.newline] ++ piece.
Proof.
  intros all_chunks all_metadatas. unfold all_chunks, all_metadatas.
  rewrite load_spec. simpl fst. simpl snd.
  split; [now rewrite !length_map|].
  intros i chunk md Hc Hm.
  rewrite nth_error_map in Hc, Hm.
  destruct (nth_error (flat_map entries txt_files) i) as [e|] eqn:E;
    [|discriminate].
  simpl in Hc, Hm. injection Hc as <-. injection Hm as <-.
  apply nth_error_In in E. apply in_flat_map in E as [path [Hp He]].
  apply entries_form in He
    as (raw_text & pieces & piece & Hr & Hs & Hin & Hmd & Hch).
  exists path, raw_text, pieces, piece. repeat split; auto.
Qed.

(** X24. A file that cannot be read, or whose text the splitter rejects,
    contributes nothing and does not disturb the other files: the chunks
    and metadata are those of the list without that file. *)
Theorem load_skips_failed (before after : list Uni.text) (bad : Uni.text) :
  ((exists e, read_file bad = inl e) \/
   (exists raw_text e,
       read_file bad = inr raw_text /\ split_text raw_text = inl e)) ->
  snd (load (before ++ bad :: after)) = snd (load (before ++ after)).
Proof.
  intros H. rewrite !load_spec.
  assert (Hb : entries bad = []).
  { unfold file_entries.
    destruct H as [[e He]|(raw_text & e & Hr & Hs)].
    - now rewrite He.
    - now rewrite Hr, Hs. }
  rewrite !flat_map_app. simpl flat_map. now rewrite Hb.
Qed.

End Loading.

Lemma load_skips_failed_witness :
  snd (load_and_chunk_files BuildSample.file_stem BuildSample.read_file
         BuildSample.split_text
         ([Uni.of_string "stats"] ++ Uni.of_string "bad" :: []))
  = snd (load_and_chunk_files BuildSample.file_stem BuildSample.read_file
           BuildSample.split_text ([Uni.of_string "stats"] ++ [])).
Proof.
  apply load_skips_failed. left. now exists (Uni.of_string "missing").
Defined.

(** ** Embedding in batches *)

Local Open Scope nat_scope.

Lemma firstn_add {A} (a b : nat) (l : list A) :
  firstn (a + b) l = firstn a l ++ firstn b (skipn a l).
Proof.
  revert l. induction a as [|a IH]; intros l; [reflexivity|].
  destruct l as [|x l]; simpl.
  - now rewrite firstn_nil.
  - now rewrite IH.
Qed.

Lemma skipn_add {A} (a b : nat) (l : list A) :
  skipn a (skipn b l) = skipn (b + a) l.
Proof.
  revert l. induction b as [|b IH]; intros l; [reflexivity|].
  destruct l as [|x l]; simpl.
  - now rewrite skipn_nil.
  - apply IH.
Qed.

Lemma batches_cover (chunks : list Uni.text) : forall k s,
  flat_map (batch_at chunks) (map (fun j => j * batch_size) (seq s k))
  = firstn (k * batch_size) (skipn (s * batch_size) chunks).
Proof.
  induction k as [|k IH]; intros s; [reflexivity|].
  simpl seq. simpl map. simpl flat_map. rewrite IH.
  unfold batch_at.
  change (S k * batch_size) with (batch_size + k * batch_size).
  rewrite firstn_add, skipn_add.
  change (S s * batch_size) with (batch_size + s * batch_size).
  now rewrite (Nat.add_comm (s * batch_size)).
Qed.

Lemma range_step_bound (total i : nat) :
  In i (range_step total batch_size) -> i < total.
Proof.
  unfold range_step, batch_size. intros H.
  apply in_map_iff in H as [j [<- Hj]]. apply in_seq in Hj.
  assert (Hd : (total + 10 - 1) / 10 * 10 <= total + 9).
  { pose proof (Nat.Div0.mul_div_le (total + 10 - 1) 10). lia. }
  nia.
Qed.

Lemma batches_partition (chunks : list Uni.text) :
  flat_map (batch_at chunks) (range_step (length chunks) batch_size)
  = chunks.
Proof.
  unfold range_step. rewrite batches_cover. simpl skipn.
  apply firstn_all2. unfold batch_size.
  pose proof (Nat.div_mod_eq (length chunks + 10 - 1) 10) as H.
  pose proof (Nat.mod_upper_bound (length chunks + 10 - 1) 10). lia.
Qed.

Lemma batch_at_length (chunks : list Uni.text) (i : nat) :
  i < length chunks ->
  1 <= length (batch_at chunks i) <= batch_size.
Proof.
  intros H. unfold batch_at.
  rewrite length_firstn, length_skipn. unfold batch_size. lia.
Qed.

Section Embedding.

Variable embed_batch : list Uni.text -> Uni.text + option (list (list Q)).

Local Abbreviation embeddings_of chunks :=
  (snd (get_embeddings_for_chunks embed_batch chunks)).

Lemma embed_loop_spec (chunks : list Uni.text) (total : nat)
    (starts : list nat) : forall embeddings,
  snd (embed_loop embed_batch starts chunks total embeddings)
  = embeddings
    ++ flat_map (fun i => batch_embeddings embed_batch (batch_at chunks i))
                starts.
Proof.
  induction starts as [|i rest IH]; intros embeddings; simpl.
  - now rewrite app_nil_r.
  - unfold batch_embeddings at 1. fold (batch_at chunks i).
    destruct (embed_batch (batch_at chunks i)) as [e|[es|]].
    + specialize (IH embeddings).
      destruct (embed_loop _ rest chunks total embeddings). exact IH.
    + specialize (IH (embeddings ++ es)).
      destruct (embed_loop _ rest chunks total (embeddings ++ es)).
      simpl in *. now rewrite IH, <- app_assoc.
    + specialize (IH embeddings).
      destruct (embed_loop _ rest chunks total embeddings). exact IH.
Qed.

Lemma embeddings_spec (chunks : list Uni.text) :
  embeddings_of chunks
  = flat_map (fun i => batch_embeddings embed_batch (batch_at chunks i))
             (range_step (length chunks) batch_size).
Proof.
  unfold get_embeddings_for_chunks.
  pose proof (embed_loop_spec chunks (length chunks)
                (range_step (length chunks) batch_size) []) as H.
  destruct (embed_loop _ _ chunks (length chunks) []). exact H.
Qed.

(** X25. [get_embeddings_for_chunks] sends every chunk to the embedding
    call exactly once and in order: the batches are non-empty, hold at
    most ten chunks, and put end to end they are the list of chunks; the
    result is the embeddings of the batches, in that order, with nothing
    for a batch whose call raised or returned no embedding. *)
Theorem batches_send_every_chunk (chunks : list Uni.text) :
  let starts := range_step (length chunks) batch_size in
  flat_map (batch_at chunks) starts = chunks /\
  Forall (fun i => 1 <= length (batch_at chunks i) <= 10) starts /\
  embeddings_of chunks
  = flat_map (fun i => batch_embeddings embed_batch (batch_at chunks i))
             starts.
Proof.
  intros starts. split; [apply batches_partition|].
  split; [|apply embeddings_spec].
  apply List.Forall_forall. intros i Hi.
  apply batch_at_length. now apply range_step_bound.
Qed.

(** X26. When the embedding call answers every batch with one embedding
    per chunk, in order, the result holds the embedding of every chunk at
    the position of the chunk. *)
Theorem embeddings_aligned (embedding_of : Uni.text -> list Q)
    (chunks : list Uni.text) :
  (forall batch, embed_batch batch = inr (Some (map embedding_of batch))) ->
  embeddings_of chunks = map embedding_of chunks.
Proof.
  intros H. rewrite embeddings_spec.
  rewrite <- (batches_partition chunks) at 2.
  generalize (range_step (length chunks) batch_size).
  induction l as [|i l IH]; [reflexivity|].
  simpl. rewrite map_app, IH. f_equal.
  unfold batch_embeddings. now rewrite H.
Qed.

Lemma flat_map_length_le {A B C} (f : A -> list B) (g : A -> list C)
    (l : list A) :
  Forall (fun i => length (f i) = length (g i)
                   \/ (length (f i) = 0 /\ 1 <= length (g i))) l ->
  length (flat_map f l) <= length (flat_map g l) /\
  (length (flat_map f l) = length (flat_map g l)
   <-> Forall (fun i => length (f i) = length (g i)) l).
Proof.
  induction 1 as [|i l Hi Hl [IH1 IH2]]; simpl.
  - split; [lia|]. split; [constructor|reflexivity].
  - rewrite !length_app. split; [lia|]. split.
    + intros Heq. constructor; [lia|]. apply IH2. lia.
    + intros Hall. inversion Hall as [|? ? Ha Hb]; subst.
      apply IH2 in Hb. lia.
Qed.

(** X27. When the embedding call, whenever it answers, returns one
    embedding per chunk of the batch, the result never has more
    embeddings than there are chunks, and it has as many exactly when no
    batch failed: one batch whose call raised or returned no embedding
    makes the result shorter than the list of chunks. *)
Theorem embeddings_count (chunks : list Uni.text) :
  (forall batch es,
      embed_batch batch = inr (Some es) -> length es = length batch) ->
  length (embeddings_of chunks) <= length chunks /\
  (length (embeddings_of chunks) = length chunks <->
   Forall (fun i => exists es,
             embed_batch (batch_at chunks i) = inr (Some es))
          (range_step (length chunks) batch_size)).
Proof.
  intros H. rewrite embeddings_spec.
  rewrite <- (batches_partition chunks) at 2 4.
  assert (Hall : Forall (fun i =>
      length (batch_embeddings embed_batch (batch_at chunks i))
      = length (batch_at chunks i)
      \/ (length (batch_embeddings embed_batch (batch_at chunks i)) = 0
          /\ 1 <= length (batch_at chunks i)))
    (range_step (length chunks) batch_size)).
  { apply List.Forall_forall. intros i Hi.
    apply range_step_bound in Hi. apply batch_at_length in Hi.
    unfold batch_embeddings.
    destruct (embed_batch (batch_at chunks i)) as [e|[es|]] eqn:E.
    - right. split; [reflexivity|lia].
    - left. now apply H.
    - right. split; [reflexivity|lia]. }
  destruct (flat_map_length_le _ _ _ Hall) as [Hle Hiff].
  split; [exact Hle|]. rewrite Hiff.
  rewrite !List.Forall_forall. split; intros Hx i Hi.
  - specialize (Hx i Hi).
    pose proof (range_step_bound _ _ Hi) as Hb.
    apply batch_at_length in Hb. unfold batch_embeddings in Hx.
    destruct (embed_batch (batch_at chunks i)) as [e|[es|]];
      simpl in Hx; try lia.
    now exists es.
  - destruct (Hx i Hi) as [es Hes].
    unfold batch_embeddings. rewrite Hes. now apply H.
Qed.

End Embedding.

Lemma embeddings_aligned_witness :
  snd (get_embeddings_for_chunks BuildSample.embed_batch
         [Uni.of_string "a"; Uni.of_string "bc"])
  = map BuildSample.embedding_of [Uni.of_string "a"; Uni.of_string "bc"].
Proof.
  apply (embeddings_aligned BuildSample.embed_batch BuildSample.embedding_of).
  reflexivity.
Defined.

Lemma embeddings_count_witness :
  length (snd (get_embeddings_for_chunks BuildSample.embed_full_only
                 [Uni.of_string "a"; Uni.of_string "bc"]))
  <= length [Uni.of_string "a"; Uni.of_string "bc"].
Proof.
  apply (embeddings_count BuildSample.embed_full_only).
  intros batch es. unfold BuildSample.embed_full_only.
  destruct (length batch <? 10)%nat; [discriminate|].
  intros [= <-]. apply length_map.
Defined.

Local Close Scope nat_scope.

(** ** The database request *)

Lemma uint_codes_inj (d : Decimal.uint) : forall d',
  Uni.uint_codes d = Uni.uint_codes d' -> d = d'.
Proof.
  induction d as [|d IH|d IH|d IH|d IH|d IH|d IH|d IH|d IH|d IH|d IH];
    intros [|d'|d'|d'|d'|d'|d'|d'|d'|d'|d'] H;
    try discriminate H; try reflexivity;
    injection H as H; f_equal; now apply IH.
Qed.

Lemma doc_id_inj (i j : nat) : doc_id i = doc_id j -> i = j.
Proof.
  unfold doc_id, Uni.decimal. intros H. apply app_inv_head in H.
  apply uint_codes_inj in H. now apply DecimalNat.Unsigned.to_uint_inj.
Qed.

Lemma NoDup_map_injective {A B} (f : A -> B) (l : list A) :
  (forall x y, f x = f y -> x = y) -> List.NoDup l -> List.NoDup (map f l).
Proof.
  intros Hf. induction 1 as [|x l Hx Hl IH]; simpl; constructor.
  - intros Hin. apply in_map_iff in Hin as [y [Hy Hin]].
    apply Hf in Hy. now subst y.
  - exact IH.
Qed.

Lemma doc_ids_NoDup (n : nat) : List.NoDup (map doc_id (seq 0 n)).
Proof.
  apply NoDup_map_injective; [|apply seq_NoDup].
  intros i j. apply doc_id_inj.
Qed.

Lemma store_calls (db : db_client) (chunks : list Uni.text)
    (embeddings : list (list Q)) (metadatas : list metadata)
    (r : add_request) :
  In (DbAdd r) (snd (store db chunks embeddings metadatas)) ->
  r = {| add_documents := chunks;
         add_embeddings := embeddings;
         add_metadatas := metadatas;
         add_ids := map doc_id (seq 0 (length chunks)) |} /\
  exists before,
    snd (store db chunks embeddings metadatas)
    = before ++ [DbGetOrCreateCollection; DbAdd r] /\
    (before = [DbListCollections]
     \/ before = [DbListCollections; DbDeleteCollection]).
Proof.
  unfold store.
  destruct (db_list_collections db) as [e|existing].
  { simpl. intros [H|[]]. discriminate. }
  destruct (existsb _ existing).
  - destruct (db_delete_collection db) as [e|].
    { simpl. intros [H|[H|[]]]; discriminate. }
    destruct (db_get_or_create_collection db) as [e|].
    { simpl. intros [H|[H|[H|[]]]]; discriminate. }
    destruct (db_add db _) as [e|count]; simpl;
      intros [H|[H|[H|[H|[]]]]]; try discriminate;
      injection H as <-;
      (split; [reflexivity|]);
      exists [DbListCollections; DbDeleteCollection]; split; auto.
  - destruct (db_get_or_create_collection db) as [e|].
    { simpl. intros [H|[H|[]]]; discriminate. }
    destruct (db_add db _) as [e|count]; simpl;
      intros [H|[H|[H|[]]]]; try discriminate;
      injection H as <-;
      (split; [reflexivity|]);
      exists [DbListCollections]; split; auto.
Qed.

Lemma batch_embeddings_lengths
    (embed_batch : list Uni.text -> Uni.text + option (list (list Q)))
    (chunks : list Uni.text) :
  (forall batch es,
      embed_batch batch = inr (Some es) -> length es = length batch) ->
  Forall (fun i =>
      length (batch_embeddings embed_batch (batch_at chunks i))
      = length (batch_at chunks i)
      \/ (length (batch_embeddings embed_batch (batch_at chunks i)) = 0%nat
          /\ (1 <= length (batch_at chunks i))%nat))
    (range_step (length chunks) batch_size).
Proof.
  intros H. apply List.Forall_forall. intros i Hi.
  apply range_step_bound in Hi. apply batch_at_length in Hi.
  unfold batch_embeddings.
  destruct (embed_batch (batch_at chunks i)) as [e|[es|]] eqn:E.
  - right. split; [reflexivity|lia].
  - left. now apply H.
  - right. split; [reflexivity|lia].
Qed.

Section Building.

Variable file_stem : Uni.text -> Uni.text.
Variable read_file : Uni.text -> Uni.text + Uni.text.
Variable split_text : Uni.text -> Uni.text + list Uni.text.
Variable embed_batch : list Uni.text -> Uni.text + option (list (list Q)).
Variable is_txt : Uni.text -> bool.
Variable join_txt_dir : Uni.text -> Uni.text.

Local Abbreviation build :=
  (build_rag_database file_stem read_file split_text embed_batch is_txt
     join_txt_dir).
Local Abbreviation load :=
  (load_and_chunk_files file_stem read_file split_text).
Local Abbreviation embeddings_of chunks :=
  (snd (get_embeddings_for_chunks embed_batch chunks)).

Lemma build_calls (names : list Uni.text) (db : db_client) :
  let txt_files := map join_txt_dir (List.filter is_txt names) in
  let chunks := fst (snd (load txt_files)) in
  let metadatas := snd (snd (load txt_files)) in
  snd (build (Some names) db)
  = if (length (embeddings_of chunks) =? length chunks)%nat
    then match txt_files with
         | [] => []
         | _ :: _ => snd (store db chunks (embeddings_of chunks) metadatas)
         end
    else [].
Proof.
  intros txt_files chunks metadatas. unfold build_rag_database.
  fold txt_files. subst chunks metadatas. clearbody txt_files.
  destruct txt_files as [|t ts].
  - simpl snd at 1. now destruct (Nat.eqb _ _).
  - set (txt_files := t :: ts).
    destruct (load txt_files) as [out1 [cs ms]]. simpl fst. simpl snd.
    destruct (get_embeddings_for_chunks embed_batch cs) as [out2 es].
    simpl snd. destruct (length es =? length cs)%nat; simpl negb; cbv iota.
    + now destruct (store db cs es ms).
    + reflexivity.
Qed.

(** X28. Whenever [build_rag_database] calls [collection.add], its four
    arguments are aligned: the documents and metadata are the chunks and
    metadata of the loader, there is exactly one embedding and one id per
    document, the ids are "doc_0", "doc_1", ... and pairwise distinct.
    The call comes last, after the collection was listed, deleted if it
    existed, and created. *)
Theorem build_add_request (txt_dir : option (list Uni.text))
    (db : db_client) (r : add_request) :
  In (DbAdd r) (snd (build txt_dir db)) ->
  exists names,
    txt_dir = Some names /\
    (add_documents r, add_metadatas r)
    = snd (load (map join_txt_dir (List.filter is_txt names))) /\
    add_embeddings r = embeddings_of (add_documents r) /\
    length (add_embeddings r) = length (add_documents r) /\
    length (add_metadatas r) = length (add_documents r) /\
    add_ids r = map doc_id (seq 0 (length (add_documents r))) /\
    length (add_ids r) = length (add_documents r) /\
    List.NoDup (add_ids r) /\
    exists before,
      snd (build txt_dir db)
      = before ++ [DbGetOrCreateCollection; DbAdd r] /\
      (before = [DbListCollections]
       \/ before = [DbListCollections; DbDeleteCollection]).
Proof.
  destruct txt_dir as [names|]; [|intros []].
  rewrite build_calls. intros H. exists names. split; [reflexivity|].
  set (txt_files := map join_txt_dir (List.filter is_txt names)) in *.
  assert (Haligned : length (fst (snd (load txt_files)))
                     = length (snd (snd (load txt_files)))).
  { rewrite (load_spec file_stem read_file split_text txt_files). simpl.
    now rewrite !length_map. }
  destruct (length _ =? length _)%nat eqn:Elen; [|destruct H].
  apply Nat.eqb_eq in Elen.
  destruct txt_files as [|t ts] eqn:Et; [destruct H|]. rewrite <- Et in *.
  apply store_calls in H as [-> Hcalls]. simpl.
  split; [now destruct (snd (load txt_files))|].
  split; [reflexivity|]. split; [exact Elen|].
  split; [symmetry; apply Haligned|].
  split; [reflexivity|]. split; [now rewrite length_map, length_seq|].
  split; [apply doc_ids_NoDup|exact Hcalls].
Qed.

(** X29. When the embedding call, whenever it answers, returns one
    embedding per chunk, a single batch whose call raises or returns no
    embedding makes [build_rag_database] stop at the count check: it
    makes no call on the database client, so the stored collection stays
    as it was. *)
Theorem failed_batch_stores_nothing (names : list Uni.text)
    (db : db_client) (i : nat) :
  let chunks :=
    fst (snd (load (map join_txt_dir (List.filter is_txt names)))) in
  (forall batch es,
      embed_batch batch = inr (Some es) -> length es = length batch) ->
  In i (range_step (length chunks) batch_size) ->
  (forall es, embed_batch (batch_at chunks i) <> inr (Some es)) ->
  (length (embeddings_of chunks) < length chunks)%nat /\
  snd (build (Some names) db) = [].
Proof.
  intros chunks Hone Hi Hfail.
  pose proof (batch_embeddings_lengths embed_batch chunks Hone) as Hall.
  destruct (flat_map_length_le _ _ _ Hall) as [Hle Hiff].
  rewrite batches_partition, <- embeddings_spec in Hle, Hiff.
  assert (Hne : length (embeddings_of chunks) <> length chunks).
  { intros Heq. apply Hiff in Heq. rewrite List.Forall_forall in Heq.
    specialize (Heq i Hi).
    pose proof (range_step_bound _ _ Hi) as Hb.
    apply batch_at_length in Hb. unfold batch_embeddings in Heq.
    destruct (embed_batch (batch_at chunks i)) as [e|[es|]] eqn:E;
      simpl in Heq; try lia.
    now apply (Hfail es). }
  split; [lia|].
  rewrite build_calls. fold chunks.
  apply Nat.eqb_neq in Hne. now rewrite Hne.
Qed.

End Building.

(** The sample build: one file is no text file, one cannot be read, the
    third gives seven chunks that are embedded and stored under the ids
    "doc_0" to "doc_6" after the old collection was deleted. *)
Example build_sample_calls :
  exists r,
    snd (build_rag_database BuildSample.file_stem BuildSample.read_file
           BuildSample.split_text BuildSample.embed_batch BuildSample.is_txt
           BuildSample.join_txt_dir (Some BuildSample.names) BuildSample.db)
    = [DbListCollections; DbDeleteCollection; DbGetOrCreateCollection;
       DbAdd r] /\
    length (add_ids r) = 7%nat.
Proof. eexists. split; [vm_compute; reflexivity|reflexivity]. Qed.

Lemma build_add_request_witness :
  exists r,
    In (DbAdd r)
       (snd (build_rag_database BuildSample.file_stem BuildSample.read_file
               BuildSample.split_text BuildSample.embed_batch
               BuildSample.is_txt BuildSample.join_txt_dir
               (Some BuildSample.names) BuildSample.db)) /\
    List.NoDup (add_ids r).
Proof.
  destruct build_sample_calls as (r & Hcalls & _).
  exists r.
  assert (Hin : In (DbAdd r)
    (snd (build_rag_database BuildSample.file_stem BuildSample.read_file
            BuildSample.split_text BuildSample.embed_batch
            BuildSample.is_txt BuildSample.join_txt_dir
            (Some BuildSample.names) BuildSample.db))).
  { rewrite Hcalls. right. right. right. now left. }
  split; [exact Hin|].
  destruct (build_add_request _ _ _ _ _ _ _ _ r Hin)
    as (names & _ & _ & _ & _ & _ & _ & _ & Hnd & _).
  exact Hnd.
Defined.

Lemma failed_batch_stores_nothing_witness :
  snd (build_rag_database BuildSample.file_stem BuildSample.read_file
         BuildSample.split_text BuildSample.embed_full_only
         BuildSample.is_txt BuildSample.join_txt_dir
         (Some BuildSample.names) BuildSample.db)
  = [].
Proof.
  destruct (failed_batch_stores_nothing BuildSample.file_stem
              BuildSample.read_file BuildSample.split_text
              BuildSample.embed_full_only BuildSample.is_txt
              BuildSample.join_txt_dir BuildSample.names BuildSample.db
              0%nat) as [_ H].
  - intros batch es. unfold BuildSample.embed_full_only.
    destruct (length batch <? 10)%nat; [discriminate|].
    intros [= <-]. apply length_map.
  - vm_compute. now left.
  - intros es. vm_compute. discriminate.
  - exact H.
Defined.
